(** * h2cstartup: header scanner, vector-count resolver and startup-module
      generator of [src/h2cstartup.c], as a shallow embedding.

    C strings are lists of characters without the terminating NUL, [int]
    values are [Z], the global [irqname] array is a list of 512 names
    indexed by [irqnum + 16].  Wherever the C program would write outside a
    buffer, or convert a number that does not fit an [int], the model
    stops with an explicit undefined-behaviour outcome instead of
    inventing a result. *)

From Stdlib Require Import ZArith Ascii String Lia Sorted.
From stdpp Require Import base list list_numbers strings pretty.

Local Open Scope Z_scope.
Local Open Scope list_scope.

(** A string literal as a C string. *)
Definition cs (s : string) : list ascii := list_ascii_of_string s.

Definition nl : ascii := "010"%char.
Definition dq : ascii := "034"%char.
Definition nul : ascii := "000"%char.

(** One line of a C string constant that ends in [\n]. *)
Definition ln (s : string) : list ascii := cs s ++ [nl].

(* ------------------------------------------------------------------ *)
(** ** The parts of the C library the program calls *)

Module CLib.

Definition eqc (a b : ascii) : bool := Ascii.eqb a b.

(** [isspace] in the C locale: HT, LF, VT, FF, CR and the blank. *)
Definition isspace (c : ascii) : bool :=
  let n := N_of_ascii c in
  ((9 <=? n) && (n <=? 13) || (n =? 32))%N.

Definition isdigit (c : ascii) : bool :=
  let n := N_of_ascii c in ((48 <=? n) && (n <=? 57))%N.

Definition digit_val (c : ascii) : Z := Z.of_N (N_of_ascii c) - 48.

(** What the string functions see of a buffer: the characters before the
    first NUL. *)
Fixpoint c_str (buf : list ascii) : list ascii :=
  match buf with
  | [] => []
  | c :: r => if eqc c nul then [] else c :: c_str r
  end.

(** [strchr(s, c) != NULL] *)
Fixpoint strchr (s : list ascii) (c : ascii) : bool :=
  match s with
  | [] => false
  | x :: r => eqc x c || strchr r c
  end.

Fixpoint starts_with (p s : list ascii) : bool :=
  match p, s with
  | [], _ => true
  | _ :: _, [] => false
  | a :: p', b :: s' => eqc a b && starts_with p' s'
  end.

(** [strstr(s, p) != NULL] *)
Fixpoint strstr (s p : list ascii) : bool :=
  starts_with p s ||
  match s with
  | [] => false
  | _ :: r => strstr r p
  end.

(** [strrchr(s, c)]: the suffix of [s] that starts at the last [c]. *)
Fixpoint strrchr (s : list ascii) (c : ascii) : option (list ascii) :=
  match s with
  | [] => None
  | x :: r =>
      match strrchr r c with
      | Some t => Some t
      | None => if eqc x c then Some s else None
      end
  end.

(** The successive results of [fgets(line, size, in)] until it returns
    NULL: each chunk ends after a newline or after [size - 1]
    characters.  [room] counts what still fits, [buf] holds the chunk
    read so far, last character first. *)
Fixpoint fgets_chunks (size room : nat) (buf stream : list ascii)
  : list (list ascii) :=
  match stream with
  | [] => match buf with [] => [] | _ => [rev buf] end
  | c :: rest =>
      if eqc c nl || (room =? 1)%nat
      then rev (c :: buf) :: fgets_chunks size (size - 1) [] rest
      else fgets_chunks size (room - 1) (c :: buf) rest
  end.

Definition fgets_all (size : nat) (stream : list ascii) : list (list ascii) :=
  c_str <$> fgets_chunks size (size - 1) [] stream.

Fixpoint skip_space (s : list ascii) : list ascii :=
  match s with
  | c :: r => if isspace c then skip_space r else s
  | [] => []
  end.

(** The longest prefix without white space, and what follows it. *)
Fixpoint span_nonspace (s : list ascii) : list ascii * list ascii :=
  match s with
  | c :: r =>
      if isspace c then ([], s)
      else let '(w, t) := span_nonspace r in (c :: w, t)
  | [] => ([], [])
  end.

(** The [%s] directive: [None] is an input failure. *)
Definition scan_s (s : list ascii) : option (list ascii * list ascii) :=
  match skip_space s with
  | [] => None
  | t => Some (span_nonspace t)
  end.

Fixpoint scan_digits (acc : Z) (s : list ascii) : Z * list ascii :=
  match s with
  | c :: r => if isdigit c then scan_digits (10 * acc + digit_val c) r
              else (acc, s)
  | [] => (acc, [])
  end.

Definition scan_unsigned (s : list ascii) : option (Z * list ascii) :=
  match s with
  | c :: _ => if isdigit c then Some (scan_digits 0 s) else None
  | [] => None
  end.

(** The [%d] directive: white space, an optional sign, decimal digits.
    The value is the mathematical one; whether it fits an [int] is the
    caller's concern. *)
Definition scan_d (s : list ascii) : option (Z * list ascii) :=
  match skip_space s with
  | c :: r =>
      if eqc c "-" then
        match scan_unsigned r with
        | Some (v, t) => Some (- v, t)
        | None => None
        end
      else if eqc c "+" then scan_unsigned r
      else scan_unsigned (c :: r)
  | [] => None
  end.

Definition INT_MIN : Z := - 2 ^ 31.
Definition INT_MAX : Z := 2 ^ 31 - 1.
Definition fits_int (z : Z) : bool := (INT_MIN <=? z) && (z <=? INT_MAX).

(** [sscanf(s, "%s = %d", id, &n)]: end of input before the first
    conversion, one item assigned, or both. *)
Inductive sscanf_sd_result :=
| SD_eof
| SD_one (id : list ascii)
| SD_two (id : list ascii) (n : Z).

Definition sscanf_sd (s : list ascii) : sscanf_sd_result :=
  match scan_s s with
  | None => SD_eof
  | Some (id, r1) =>
      match skip_space r1 with
      | c :: r2 =>
          if eqc c "=" then
            match scan_d r2 with
            | Some (n, _) => SD_two id n
            | None => SD_one id
            end
          else SD_one id
      | [] => SD_one id
      end
  end.

(** [%d] *)
Definition fmt_d (z : Z) : list ascii := cs (pretty z).

(** Right-justified in a field of [w] characters: [%*d], [%2d]. *)
Definition pad_left (w : nat) (s : list ascii) : list ascii :=
  replicate (w - length s) " "%char ++ s.

(** Left-justified: [%-48s]. *)
Definition pad_right (w : nat) (s : list ascii) : list ascii :=
  s ++ replicate (w - length s) " "%char.

End CLib.

Import CLib.

(* ------------------------------------------------------------------ *)
(** ** Constants and tables *)

Definition MAXLINELEN : nat := 140.
Definition IRQNAMELEN : nat := 32.
Definition NIRQNAMES : nat := 512.

Definition ERR_NOFILE : Z := 2.
Definition ERR_BADFORMAT : Z := 3.
Definition ERR_BADOPT : Z := 4.

(** [stdexcname]: a null pointer is [None]. *)
Definition stdexcname : list (option (list ascii)) :=
  [ None; None;
    Some (cs "NMI_");
    None;
    Some (cs "MemManage_");
    None; None;
    None; None; None; None;
    Some (cs "SVC_");
    Some (cs "DebugMon_");
    None;
    None;
    None ].

(* ------------------------------------------------------------------ *)
(** ** The header scanner: the [while (fgets ...)] loop of [main] *)

Record scan_state := {
  irqdefs : bool;                  (* the [_IRQn] marker has been seen *)
  maxirqn : Z;
  irqname : list (list ascii);     (* the global [irqname[512][32]] *)
  errs : list ascii                (* what went to [stderr] *)
}.

Definition scan_init : scan_state :=
  {| irqdefs := false; maxirqn := -15;
     irqname := replicate NIRQNAMES []; errs := [] |}.

(** [irqname[i]] read as a string. *)
Definition irqname_at (t : list (list ascii)) (i : Z) : list ascii :=
  default [] (t !! Z.to_nat i).

(** How one pass through the loop body ends. *)
Inductive loop_ctl :=
| Next (st : scan_state)
| Stop (st : scan_state)       (* [break] *)
| Undef.                       (* undefined behaviour *)

(** The number of trailing characters cut from the identifier. *)
Definition cut_len (irqnum : Z) : nat := if irqnum >=? 0 then 1%nat else 4%nat.

(** The [else if (strchr(line, '}')) break;] arm. *)
Definition brace_arm (st : scan_state) (line : list ascii) : loop_ctl :=
  if strchr line "}" then Stop st else Next st.

Definition scan_line (st0 : scan_state) (line : list ascii) : loop_ctl :=
  let st := {| irqdefs := irqdefs st0 || strstr line (cs "_IRQn");
               maxirqn := maxirqn st0; irqname := irqname st0; errs := errs st0 |} in
  if irqdefs st then
    match sscanf_sd line with
    | SD_eof => brace_arm st line
    | SD_one irqid =>
        (* [%s] has no field width: [irqid[IRQNAMELEN]] overflows *)
        if (IRQNAMELEN <=? length irqid)%nat then Undef else brace_arm st line
    | SD_two irqid irqnum =>
        if (IRQNAMELEN <=? length irqid)%nat then Undef
        else if negb (fits_int irqnum) then Undef
        else if irqnum <? 496 then
          (* [irqid[strlen(irqid) - k] = 0]: the index is a [size_t] *)
          if (length irqid <? cut_len irqnum)%nat then Undef
          else
            let irqid' := take (length irqid - cut_len irqnum) irqid in
            let maxirqn' := if irqnum >? maxirqn st then irqnum else maxirqn st in
            if (irqnum >=? -14) && (irqnum <=? 512) then
              Next {| irqdefs := irqdefs st; maxirqn := maxirqn';
                      irqname := <[Z.to_nat (irqnum + 16) := irqid']> (irqname st);
                      errs := errs st |}
            else
              Next {| irqdefs := irqdefs st; maxirqn := maxirqn';
                      irqname := irqname st;
                      errs := errs st ++ cs "error: " ++ line ++ [nl] |}
        else brace_arm st line
    end
  else Next st.

(** The loop over the lines [fgets] delivers. *)
Fixpoint scan_lines (st : scan_state) (lines : list (list ascii)) : option scan_state :=
  match lines with
  | [] => Some st
  | line :: rest =>
      match scan_line st line with
      | Next st' => scan_lines st' rest
      | Stop st' => Some st'
      | Undef => None
      end
  end.

(** The state in which a pass leaves the loop body after a line that gave
    [irqid] and [irqnum < 496], written out once for the lemmas below. *)
Definition accepted_state (st : scan_state) (line irqid : list ascii) (irqnum : Z)
  : scan_state :=
  let irqid' := take (length irqid - cut_len irqnum) irqid in
  let maxirqn' := Z.max (maxirqn st) irqnum in
  if decide (-14 <= irqnum <= 512) then
    {| irqdefs := true; maxirqn := maxirqn';
       irqname := <[Z.to_nat (irqnum + 16) := irqid']> (irqname st);
       errs := errs st |}
  else
    {| irqdefs := true; maxirqn := maxirqn';
       irqname := irqname st;
       errs := errs st ++ cs "error: " ++ line ++ [nl] |}.

(** What every pass of the loop keeps true of its state: the table has its
    512 slots, [maxirqn] stays within [-15, 495], a non-empty name sits
    in a slot between 2 and [maxirqn + 16], and every name leaves room in
    its 32-byte buffer. *)
Definition scan_inv (st : scan_state) : Prop :=
  length (irqname st) = NIRQNAMES
  /\ -15 <= maxirqn st <= 495
  /\ (forall i, irqname_at (irqname st) i <> [] -> 2 <= i <= maxirqn st + 16)
  /\ Forall (fun name => (length name < IRQNAMELEN - 1)%nat) (irqname st).

(** Scanning a whole header file; [None] is undefined behaviour. *)
Definition scan_header (content : list ascii) : option scan_state :=
  scan_lines scan_init (fgets_all MAXLINELEN content).

Definition header1 : list ascii :=
  ln "typedef enum {" ++
  ln "  NonMaskableInt_IRQn = -14," ++
  ln "  WWDG_IRQn = 0," ++
  ln "  PVD_IRQn = 1," ++
  ln "} IRQn_Type;".

(** The same header with an entry after the closing brace. *)
Definition header_late : list ascii := header1 ++ ln "  LATE_IRQn = 7,".

(* ------------------------------------------------------------------ *)
(** ** Options and the vector-count adjustment *)

Record options := {
  addirqs : bool;        (* -i *)
  stdexcnames : bool;    (* -s *)
  nirqns : Z             (* -n, [-1] when not given *)
}.

Definition default_options : options :=
  {| addirqs := false; stdexcnames := false; nirqns := -1 |}.

(** [mcuirqns = maxirqn + 1] *)
Definition mcuirqns_of (maxirqn : Z) : Z := maxirqn + 1.

(** [if (nirqns > mcuirqns && !addirqs) nirqns = mcuirqns;] *)
Definition adjust_nirqns (o : options) (mcuirqns : Z) : Z :=
  if (nirqns o >? mcuirqns) && negb (addirqs o) then mcuirqns else nirqns o.

(** [if (nirqns != -1 && maxirqn > nirqns - 1) maxirqn = nirqns - 1;] *)
Definition limit_maxirqn (nirqns maxirqn : Z) : Z :=
  if negb (nirqns =? -1) && (maxirqn >? nirqns - 1) then nirqns - 1 else maxirqn.

(** The last NVIC interrupt number the generator loops run to. *)
Definition effective_maxirqn (o : options) (maxirqn : Z) : Z :=
  limit_maxirqn (adjust_nirqns o (mcuirqns_of maxirqn)) maxirqn.

(* ------------------------------------------------------------------ *)
(** ** The generator: the three output loops of [main] *)

Definition nonempty (s : list ascii) : bool :=
  match s with [] => false | _ :: _ => true end.

Definition stdexcname_at (i : Z) : option (list ascii) :=
  default None (stdexcname !! Z.to_nat i).

(** [stdexcnames && i < 16 && stdexcname[i] ? stdexcname[i] : irqname[i]] *)
Definition core_or_vendor_name (o : options) (t : list (list ascii)) (i : Z)
  : list ascii :=
  match (if stdexcnames o && (i <? 16) then stdexcname_at i else None) with
  | Some std => std
  | None => irqname_at t i
  end.

(** The handler declared by pass [i] of the first loop, if any. *)
Definition decl_handler (o : options) (t : list (list ascii)) (i : Z)
  : option (list ascii) :=
  if nonempty (irqname_at t i) then
    Some (core_or_vendor_name o t i ++ cs "Handler")
  else if (i >=? 16) && addirqs o then
    Some (cs "IRQ" ++ fmt_d (i - 16) ++ cs "_IRQHandler")
  else None.

(** [for (int i = 2; i <= maxirqn + 16; i++)]: slot and handler of every
    declaration, in order. *)
Definition handler_decls (o : options) (t : list (list ascii)) (maxirqn : Z)
  : list (Z * list ascii) :=
  omap (fun i => pair i <$> decl_handler o t i) (seqZ 2 (maxirqn + 15)).

(** The handler stored in [Core_Exceptions] by pass [i] of the second
    loop, if any. *)
Definition core_handler (o : options) (t : list (list ascii)) (i : Z)
  : option (list ascii) :=
  if nonempty (irqname_at t i) then
    Some (match (if stdexcnames o then stdexcname_at i else None) with
          | Some std => std
          | None => irqname_at t i
          end ++ cs "Handler")
  else None.

(** [for (int i = 2; i < 16; i++)] *)
Definition core_vectors (o : options) (t : list (list ascii)) : list (Z * list ascii) :=
  omap (fun i => pair i <$> core_handler o t i) (seqZ 2 14).

(** The handler stored in [NVIC_Interrupts] by pass [i] of the third loop. *)
Definition nvic_handler (o : options) (t : list (list ascii)) (i : Z)
  : option (list ascii) :=
  if nonempty (irqname_at t i) then Some (irqname_at t i ++ cs "Handler")
  else if addirqs o then Some (cs "IRQ" ++ fmt_d (i - 16) ++ cs "_IRQHandler")
  else None.

(** [for (int i = 16; i <= maxirqn + 16; i++)]: NVIC index [i - 16] and
    handler of every initializer, in order. *)
Definition nvic_vectors (o : options) (t : list (list ascii)) (maxirqn : Z)
  : list (Z * list ascii) :=
  omap (fun i => pair (i - 16) <$> nvic_handler o t i) (seqZ 16 (maxirqn + 1)).

Definition weak_alias : list ascii :=
  cs "__attribute__ ((weak, alias(" ++ [dq] ++ cs "Default_Handler" ++ [dq]
  ++ cs ")));" ++ [nl].

Definition decl_text (d : Z * list ascii) : list ascii :=
  pad_right 48 (cs "void " ++ d.2 ++ cs "(void)") ++ weak_alias.

Definition core_vector_text (e : Z * list ascii) : list ascii :=
  cs "        CX(" ++ pad_left 2 (fmt_d e.1) ++ cs ") = " ++ e.2
  ++ (if e.1 <? 15 then cs "," ++ [nl] else [nl]).

(** [inw = maxirqn > 99 ? 3 : 2] *)
Definition index_width (maxirqn : Z) : nat := if maxirqn >? 99 then 3%nat else 2%nat.

Definition nvic_vector_text (maxirqn : Z) (e : Z * list ascii) : list ascii :=
  cs "        [" ++ pad_left (index_width maxirqn) (fmt_d e.1) ++ cs "] = " ++ e.2
  ++ (if e.1 + 16 <? maxirqn + 16 then cs "," else []) ++ [nl].

(* ------------------------------------------------------------------ *)
(** ** The fixed texts *)

Definition helpstr : list ascii :=
  ln "Usage: h2cstartup <mcuname>.h" ++
  ln "produces C source file startup_<mcuname>.c containing the complete startup module" ++
  ln "with properly named exception vectors from MCU resource definition header file" ++
  ln "Options:" ++
  ln "-i        define names for unused NVIC interrupts" ++
  ln "-n <irqn> define table with <irqn> IRQ vectors up to <irqn>-1" ++
  ln "-s        use short standard names for core exception handlers".

(** [heading], with its two [%s] filled in. *)
Definition heading (ofname in_name : list ascii) : list ascii :=
  ln "/*" ++
  cs "    " ++ ofname ++ [nl] ++
  cs "    gcc-arm compatible C startup module generated by h2cstartup from "
    ++ in_name ++ [nl] ++
  ln "    gbm 10'2022" ++
  ln "    https://github.com/gbm-ii/Cortex-M_C_startup_gen " ++
  [nl].

Definition defhandler : list ascii :=
  ln "// the names below represent memory addresses, not real variables" ++
  ln "extern int" ++
  ln "   _sdata,  // start of .data section" ++
  ln "   _edata,  // end of data section" ++
  ln "   _sidata, // start of .data section image in Flash" ++
  ln "   _sbss,   // start of .bss section" ++
  ln "   _ebss,   // end of .bss section" ++
  ln "   _estack; // bottom of stack location" ++
  ln "" ++
  ln "// external functions called during startup" ++
  ln "void SystemInit(void);" ++
  ln "void __libc_init_array(void);" ++
  ln "int main(void);" ++
  ln "" ++
  ln "// code executed after core reset" ++
  ln "__attribute__ ((naked, noreturn)) void Reset_Handler(void)" ++
  ln "{" ++
  ln "   SystemInit();" ++
  ln "   // initialize .data section values from Flash" ++
  ln "   for (int *dptr = &_sdata, *sptr = &_sidata; dptr < &_edata;)" ++
  ln "       *dptr++ = *sptr++;" ++
  ln "   // zero the .bss section" ++
  ln "   for (int *dptr = &_sbss; dptr < &_ebss; dptr++)" ++
  ln "       *dptr = 0;" ++
  ln "   __libc_init_array();" ++
  ln "   main();" ++
  ln "   for (;;);" ++
  ln "}" ++
  ln "" ++
  ln "// the default empty handler for exceptions not handled by user" ++
  ln "static void Default_Handler(void)" ++
  ln "{" ++
  ln "    for (;;);" ++
  ln "}" ++
  [nl].

Definition vtstart : list ascii :=
  [nl] ++
  ln "struct vectable_ {" ++
  ln "    void *Initial_SP;" ++
  ln "    void (*Core_Exceptions[15])(void);" ++
  ln "    void (*NVIC_Interrupts[])(void);" ++
  ln "};" ++
  [nl] ++
  ln "#define CX(a) [(a) - 1]" ++
  [nl] ++
  cs "const struct vectable_ g_pfnvectors __attribute__((section(" ++ [dq]
    ++ cs ".isr_vector" ++ [dq] ++ cs "))) = {" ++ [nl] ++
  ln "    .Initial_SP = &_estack," ++
  ln "    .Core_Exceptions = {" ++
  ln "        CX( 1) = Reset_Handler,".

Definition vtmid : list ascii :=
  ln "    }," ++
  ln "    .NVIC_Interrupts = {".

Definition vtend : list ascii :=
  ln "    }" ++
  ln "};".

(* ------------------------------------------------------------------ *)
(** ** [get_stripped_name] and the output file name *)

Definition get_stripped_name (name : list ascii) : list ascii :=
  match strrchr name "/" with
  | Some t => drop 1 t
  | None =>
      match strrchr name "\" with
      | Some t => drop 1 t
      | None => name
      end
  end.

Definition OFNAMELEN : nat := 200.

(** [char ofname[200] = "startup_"; strcat(...); ofname[strlen(ofname) - 1] = 'c';]
    [None] when [strcat] runs past the buffer. *)
Definition make_ofname (stripped_in_name : list ascii) : option (list ascii) :=
  let ofname := cs "startup_" ++ stripped_in_name in
  if (OFNAMELEN <=? length ofname)%nat then None
  else Some (take (length ofname - 1) ofname ++ cs "c").

(* ------------------------------------------------------------------ *)
(** ** The text written to the output file *)

Definition output_text (o : options) (st : scan_state)
    (ofname stripped_in_name : list ascii) : list ascii :=
  let mcuirqns := mcuirqns_of (maxirqn st) in
  let nirqns' := adjust_nirqns o mcuirqns in
  let maxirqn' := effective_maxirqn o (maxirqn st) in
  heading ofname stripped_in_name ++
  (if stdexcnames o then ln "    Standard short core exception names." else []) ++
  (if (nirqns' >? -1) && negb (nirqns' =? mcuirqns)
   then cs "    " ++ fmt_d nirqns' ++ cs " NVIC IRQ vectors (MCU defines "
        ++ fmt_d mcuirqns ++ cs ")." ++ [nl]
   else []) ++
  (if addirqs o then ln "    Unused vector names defined." else []) ++
  ln "*/" ++ [nl] ++
  defhandler ++
  concat (decl_text <$> handler_decls o (irqname st) maxirqn') ++
  vtstart ++
  concat (core_vector_text <$> core_vectors o (irqname st)) ++
  vtmid ++
  concat (nvic_vector_text maxirqn' <$> nvic_vectors o (irqname st) maxirqn') ++
  vtend.

(* ------------------------------------------------------------------ *)
(** ** [main] *)

(** What the program can observe of the file system: the text of a file
    opened for reading ([None]: [fopen] returns NULL), and whether a file
    can be created for writing. *)
Record world := {
  fopen_r : list ascii -> option (list ascii);
  fopen_w : list ascii -> bool
}.

(** What a run that returns from [main] leaves behind. *)
Record exit_state := {
  exit_code : Z;
  stdout : list ascii;
  stderr : list ascii;
  outfile : option (list ascii * list ascii)   (* name and text *)
}.

Inductive outcome :=
| Exited (e : exit_state)
| UndefinedBehaviour.

Definition fail (code : Z) (err : list ascii) : outcome :=
  Exited {| exit_code := code; stdout := []; stderr := err; outfile := None |}.

(** How the option loop ends. *)
Inductive opts_result :=
| OptsDone (o : options) (rest : list (list ascii))   (* [rest] is [argv + carg] *)
| OptsFail (code : Z) (err : list ascii)
| OptsUndef.

(** [for (carg = 1; carg < argc && argv[carg][0] == '-'; carg++)] *)
Fixpoint parse_options (o : options) (args : list (list ascii)) : opts_result :=
  match args with
  | [] => OptsDone o []
  | arg :: rest =>
      match arg with
      | c0 :: arg1 =>
          if eqc c0 "-" then
            match arg1 with
            | c1 :: _ =>
                if eqc c1 "n" then
                  match rest with
                  | [] => OptsFail ERR_BADOPT (ln "missing -n argument")
                  | v :: rest' =>
                      match scan_d v with
                      | None => OptsFail ERR_BADOPT (ln "missing -n argument")
                      | Some (n, _) =>
                          if negb (fits_int n) then OptsUndef
                          else if (n <? 0) || (n >? 496)
                          then OptsFail ERR_BADOPT (ln "-n argument out of range")
                          else parse_options
                                 {| addirqs := addirqs o; stdexcnames := stdexcnames o;
                                    nirqns := n |} rest'
                      end
                  end
                else if eqc c1 "i" then
                  parse_options {| addirqs := true; stdexcnames := stdexcnames o;
                                   nirqns := nirqns o |} rest
                else if eqc c1 "s" then
                  parse_options {| addirqs := addirqs o; stdexcnames := true;
                                   nirqns := nirqns o |} rest
                else OptsFail ERR_BADOPT (cs "invalid option " ++ arg ++ [nl])
            | [] => OptsFail ERR_BADOPT (cs "invalid option " ++ arg ++ [nl])
            end
          else OptsDone o args
      | [] => OptsDone o args
      end
  end.

(** [main(argc, argv)] with [args] the arguments after the program name. *)
Definition main (w : world) (args : list (list ascii)) : outcome :=
  match args with
  | [] =>
      Exited {| exit_code := 0; stdout := helpstr; stderr := []; outfile := None |}
  | _ :: _ =>
      match parse_options default_options args with
      | OptsUndef => UndefinedBehaviour
      | OptsFail code err => fail code err
      | OptsDone o [] => fail 1 (ln "file not specified")
      | OptsDone o (in_name :: _) =>
          let in_ := fopen_r w in_name in
          match in_ with
          | None => fail ERR_NOFILE (in_name ++ cs " file not found" ++ [nl])
          | Some content =>
              match scan_header content with
              | None => UndefinedBehaviour
              | Some st =>
                  let stripped_in_name := get_stripped_name in_name in
                  match make_ofname stripped_in_name with
                  | None => UndefinedBehaviour
                  | Some ofname =>
                      let out := fopen_w w ofname in
                      (* [if (in == NULL)]: the test is on [in], not on [out] *)
                      match in_ with
                      | None =>
                          fail ERR_NOFILE
                            (errs st ++ cs "cannot create file " ++ ofname ++ [nl])
                      | Some _ =>
                          if out then
                            Exited {| exit_code := 0; stdout := []; stderr := errs st;
                                      outfile := Some (ofname,
                                        output_text o st ofname stripped_in_name) |}
                          else
                            (* [fprintf(out, ...)] with [out == NULL] *)
                            UndefinedBehaviour
                      end
                  end
              end
          end
      end
  end.

(* ------------------------------------------------------------------ *)
(** ** Worked inputs *)

Definition world1 : world :=
  {| fopen_r := fun name => if decide (name = cs "stm32.h") then Some header1 else None;
     fopen_w := fun _ => true |}.

(** A file system in which no file can be created. *)
Definition world_readonly : world :=
  {| fopen_r := fopen_r world1; fopen_w := fun _ => false |}.

(** A file system that differs from [world1] in the other files. *)
Definition world1' : world :=
  {| fopen_r := fun name => if decide (name = cs "stm32.h") then Some header1
                            else Some header_late;
     fopen_w := fun name => bool_decide (name = cs "startup_stm32.c") |}.

(** The two NVIC lines of the example header alone. *)
Definition header2 : list ascii :=
  ln "WWDG_IRQn = 0," ++
  ln "PVD_IRQn = 1,".

Definition line_minus15 : list ascii := cs "Foo_IRQn = -15,".

(* ------------------------------------------------------------------ *)
(** ** The model on small inputs *)

Example sscanf_sd_wwdg :
  sscanf_sd (cs "  WWDG_IRQn                   = 0,      /*!< Window WatchDog */")
  = SD_two (cs "WWDG_IRQn") 0.
Proof. reflexivity. Qed.

Example sscanf_sd_nmi :
  sscanf_sd (cs "NonMaskableInt_IRQn = -14,") = SD_two (cs "NonMaskableInt_IRQn") (-14).
Proof. reflexivity. Qed.

Example sscanf_sd_glued : sscanf_sd (cs "A_IRQn=3") = SD_one (cs "A_IRQn=3").
Proof. reflexivity. Qed.

Example sscanf_sd_blank : sscanf_sd (cs "   ") = SD_eof.
Proof. reflexivity. Qed.

Example fmt_d_neg : fmt_d (-14) = cs "-14" /\ pad_left 3 (fmt_d 7) = cs "  7".
Proof. split; reflexivity. Qed.

Example fgets_all_split :
  fgets_all 4 (cs "abcdefg" ++ [nl] ++ cs "x") = [cs "abc"; cs "def"; cs "g" ++ [nl]; cs "x"].
Proof. reflexivity. Qed.

Example scan_header1 :
  (fun st => (maxirqn st, irqname_at (irqname st) 2, irqname_at (irqname st) 16,
              irqname_at (irqname st) 17, irqname_at (irqname st) 23, errs st))
    <$> scan_header header_late
  = Some (1, cs "NonMaskableInt_", cs "WWDG_IRQ", cs "PVD_IRQ", [], []).
Proof. vm_compute. reflexivity. Qed.

(* ------------------------------------------------------------------ *)
(** ** One pass of the scanner on a line that matches [%s = %d] *)

Section ScanLine.

Variables (st : scan_state) (line irqid : list ascii) (irqnum : Z).

(** The marker has been seen, on an earlier line or on this one. *)
Hypothesis marker : irqdefs st || strstr line (cs "_IRQn") = true.
Hypothesis parsed : sscanf_sd line = SD_two irqid irqnum.

Lemma scan_line_accept :
  irqnum < 496 ->
  (length irqid < IRQNAMELEN)%nat ->
  fits_int irqnum = true ->
  (cut_len irqnum <= length irqid)%nat ->
  scan_line st line = Next (accepted_state st line irqid irqnum).
Proof.
  intros Hlt Hlen Hint Hcut.
  unfold scan_line, accepted_state. cbv zeta. cbn [irqdefs maxirqn irqname errs].
  rewrite marker, parsed, Hint. cbn [negb].
  destruct (Nat.leb_spec IRQNAMELEN (length irqid)); [lia|].
  destruct (Z.ltb_spec irqnum 496); [|lia].
  destruct (Nat.ltb_spec (length irqid) (cut_len irqnum)); [lia|].
  assert ((if irqnum >? maxirqn st then irqnum else maxirqn st)
          = Z.max (maxirqn st) irqnum) as ->.
  { destruct (Z.gtb_spec irqnum (maxirqn st)); lia. }
  destruct (decide (-14 <= irqnum <= 512)) as [Hin|Hout].
  - replace (irqnum >=? -14) with true by lia.
    replace (irqnum <=? 512) with true by lia. reflexivity.
  - destruct (Z.geb_spec irqnum (-14)), (Z.leb_spec irqnum 512);
      cbn [andb]; try reflexivity; lia.
Qed.

(** Whenever the pass goes on to the next line after an integer below
    496, it was defined and ended in [accepted_state]. *)
Lemma scan_line_accept_inv st' :
  irqnum < 496 ->
  scan_line st line = Next st' ->
  st' = accepted_state st line irqid irqnum /\ (length irqid < IRQNAMELEN)%nat
  /\ (cut_len irqnum <= length irqid)%nat.
Proof.
  intros Hlt Hnext.
  destruct (Nat.leb_spec IRQNAMELEN (length irqid)) as [Hbig|Hsmall].
  { unfold scan_line in Hnext. cbv zeta in Hnext.
    cbn [irqdefs maxirqn irqname errs] in Hnext.
    rewrite marker, parsed in Hnext.
    destruct (Nat.leb_spec IRQNAMELEN (length irqid)); [discriminate|lia]. }
  destruct (fits_int irqnum) eqn:Hint.
  2:{ unfold scan_line in Hnext. cbv zeta in Hnext.
      cbn [irqdefs maxirqn irqname errs] in Hnext.
      rewrite marker, parsed, Hint in Hnext.
      destruct (Nat.leb_spec IRQNAMELEN (length irqid)); [lia|discriminate]. }
  destruct (Nat.ltb_spec (length irqid) (cut_len irqnum)) as [Hshort|Hok].
  { unfold scan_line in Hnext. cbv zeta in Hnext.
    cbn [irqdefs maxirqn irqname errs] in Hnext.
    rewrite marker, parsed, Hint in Hnext. cbn [negb] in Hnext.
    destruct (Nat.leb_spec IRQNAMELEN (length irqid)); [lia|].
    destruct (Z.ltb_spec irqnum 496); [|lia].
    destruct (Nat.ltb_spec (length irqid) (cut_len irqnum)); [discriminate|lia]. }
  rewrite scan_line_accept in Hnext by assumption.
  split; [congruence|split; assumption].
Qed.

End ScanLine.

Lemma irqname_at_insert (t : list (list ascii)) (i : Z) (name : list ascii) :
  0 <= i -> (Z.to_nat i < length t)%nat ->
  irqname_at (<[Z.to_nat i := name]> t) i = name.
Proof.
  intros Hi Hlen. unfold irqname_at.
  rewrite list_lookup_insert_eq by assumption. reflexivity.
Qed.

Lemma irqname_at_insert_ne (t : list (list ascii)) (i j : Z) (name : list ascii) :
  Z.to_nat i <> Z.to_nat j ->
  irqname_at (<[Z.to_nat i := name]> t) j = irqname_at t j.
Proof.
  intros Hne. unfold irqname_at.
  rewrite list_lookup_insert_ne by assumption. reflexivity.
Qed.

(** Cutting [k] characters off the end leaves a prefix followed by
    exactly [k] characters. *)
Lemma take_cut_suffix (s : list ascii) (k : nat) :
  (k <= length s)%nat ->
  exists suffix, s = take (length s - k) s ++ suffix /\ length suffix = k.
Proof.
  intros Hk. exists (drop (length s - k) s). split.
  - symmetry. apply take_drop.
  - rewrite length_drop. lia.
Qed.

(* ------------------------------------------------------------------ *)
(** ** Slot and name of a stored entry *)

(** C1: when the scanner accepts a line [<identifier> = <integer>] and
    stores it (the marker has been seen, the integer is below 496 and at
    least -14, the pass is defined), the name ends up in table slot
    [integer + 16] and no other slot changes; the identifier is that name
    followed by exactly 1 character when the integer is >= 0 and by
    exactly 4 characters when it is negative. *)
Theorem stored_slot_and_name st line irqid irqnum st' :
  irqdefs st || strstr line (cs "_IRQn") = true ->
  sscanf_sd line = SD_two irqid irqnum ->
  irqnum < 496 ->
  -14 <= irqnum ->
  length (irqname st) = NIRQNAMES ->
  scan_line st line = Next st' ->
  (exists suffix,
      irqid = irqname_at (irqname st') (irqnum + 16) ++ suffix
      /\ length suffix = if decide (0 <= irqnum) then 1%nat else 4%nat)
  /\ (forall j, 0 <= j -> j <> irqnum + 16 ->
         irqname_at (irqname st') j = irqname_at (irqname st) j).
Proof.
  intros Hm Hp Hlt Hge Hlen Hnext.
  destruct (scan_line_accept_inv st line irqid irqnum Hm Hp st' Hlt Hnext)
    as (-> & Hshort & Hcut).
  unfold accepted_state. cbv zeta.
  destruct (decide (-14 <= irqnum <= 512)) as [_|Hout]; [|lia].
  cbn [irqname]. split.
  - rewrite irqname_at_insert by (unfold NIRQNAMES in Hlen; lia).
    destruct (take_cut_suffix irqid (cut_len irqnum) Hcut) as (suffix & Heq & Hsl).
    exists suffix. split; [exact Heq|].
    rewrite Hsl. unfold cut_len.
    destruct (decide (0 <= irqnum)), (Z.geb_spec irqnum 0); try reflexivity; lia.
  - intros j Hj Hne. apply irqname_at_insert_ne. lia.
Qed.

Lemma stored_slot_and_name_witness :
  exists st',
    scan_line scan_init (cs "NonMaskableInt_IRQn = -14,") = Next st'
    /\ (exists suffix,
          cs "NonMaskableInt_IRQn" = irqname_at (irqname st') (-14 + 16) ++ suffix
          /\ length suffix = if decide (0 <= -14) then 1%nat else 4%nat).
Proof.
  eexists. split; [reflexivity|].
  apply (stored_slot_and_name scan_init (cs "NonMaskableInt_IRQn = -14,")
           (cs "NonMaskableInt_IRQn") (-14));
    first [reflexivity | lia].
Defined.

(* ------------------------------------------------------------------ *)
(** ** The suffix cut from an NVIC identifier *)

(** C5, as the spec has it, fails: scanning [WWDG_IRQn = 0,] and
    [PVD_IRQn = 1,] does not store the names [WWDG_] and [PVD_]. *)
Lemma wwdg_pvd_not_bare_prefix :
  ~ (exists st, scan_header header2 = Some st
       /\ irqname_at (irqname st) 16 = cs "WWDG_"
       /\ irqname_at (irqname st) 17 = cs "PVD_").
Proof.
  intros (st & Hscan & H16 & _).
  vm_compute in Hscan. injection Hscan as <-.
  vm_compute in H16. discriminate H16.
Qed.

(** C5, amended: for an accepted line with a non-negative integer, an
    identifier [Foo_IRQn] is stored as [Foo_IRQ] (only the final [n] is
    cut); the lines [WWDG_IRQn = 0,] and [PVD_IRQn = 1,] put [WWDG_IRQ]
    and [PVD_IRQ] into the slots of NVIC interrupts 0 and 1. *)
Theorem nonneg_IRQn_keeps_IRQ st line foo irqnum :
  irqdefs st || strstr line (cs "_IRQn") = true ->
  sscanf_sd line = SD_two (foo ++ cs "_IRQn") irqnum ->
  0 <= irqnum < 496 ->
  (length (foo ++ cs "_IRQn") < IRQNAMELEN)%nat ->
  length (irqname st) = NIRQNAMES ->
  (exists st', scan_line st line = Next st'
      /\ irqname_at (irqname st') (irqnum + 16) = foo ++ cs "_IRQ")
  /\ (exists st2, scan_header header2 = Some st2
      /\ irqname_at (irqname st2) (0 + 16) = cs "WWDG_IRQ"
      /\ irqname_at (irqname st2) (1 + 16) = cs "PVD_IRQ").
Proof.
  intros Hm Hp Hrange Hshort Hlen. split.
  - eexists. split.
    + apply (scan_line_accept st line (foo ++ cs "_IRQn") irqnum Hm Hp);
        [lia | exact Hshort | unfold fits_int, INT_MIN, INT_MAX; lia |].
      unfold cut_len. replace (irqnum >=? 0) with true by lia.
      rewrite length_app. cbn. lia.
    + unfold accepted_state. cbv zeta.
      destruct (decide (-14 <= irqnum <= 512)) as [_|Hout]; [|lia].
      cbn [irqname].
      rewrite irqname_at_insert by (unfold NIRQNAMES in Hlen; lia).
      unfold cut_len. replace (irqnum >=? 0) with true by lia.
      change (cs "_IRQn") with (cs "_IRQ" ++ cs "n").
      rewrite (assoc_L (++)).
      replace (length ((foo ++ cs "_IRQ") ++ cs "n") - 1)%nat
        with (length (foo ++ cs "_IRQ")).
      * apply take_app_length.
      * rewrite (length_app (foo ++ cs "_IRQ")). cbn. lia.
  - eexists. split; [vm_compute; reflexivity|].
    split; vm_compute; reflexivity.
Qed.

Lemma nonneg_IRQn_keeps_IRQ_witness :
  (exists st', scan_line scan_init (cs "PVD_IRQn = 1,") = Next st'
      /\ irqname_at (irqname st') (1 + 16) = cs "PVD" ++ cs "_IRQ")
  /\ (exists st2, scan_header header2 = Some st2
      /\ irqname_at (irqname st2) (0 + 16) = cs "WWDG_IRQ"
      /\ irqname_at (irqname st2) (1 + 16) = cs "PVD_IRQ").
Proof.
  apply (nonneg_IRQn_keeps_IRQ scan_init (cs "PVD_IRQn = 1,") (cs "PVD") 1);
    first [reflexivity | lia | vm_compute; lia].
Defined.

(* ------------------------------------------------------------------ *)
(** ** The range check before the store *)

(** C6, as the spec has it, fails: [Foo_IRQn = -15,] parses to an integer
    below 496 and within [-16, 512], yet nothing is stored (the slot
    [-15 + 16] stays empty, the table is unchanged) and the line goes to
    the error stream. *)
Lemma minus15_reported_not_stored :
  sscanf_sd line_minus15 = SD_two (cs "Foo_IRQn") (-15)
  /\ -15 < 496 /\ -16 <= -15 <= 512
  /\ exists st', scan_line scan_init line_minus15 = Next st'
       /\ irqname_at (irqname st') (-15 + 16) = []
       /\ irqname st' = irqname scan_init
       /\ errs st' = cs "error: Foo_IRQn = -15," ++ [nl].
Proof.
  split; [reflexivity|]. split; [lia|]. split; [lia|].
  eexists. split; [reflexivity|]. repeat split.
Qed.

(** C6, amended: for a line that parses to an identifier and an integer
    below 496, on which the pass is defined (the identifier fits the
    32-byte buffer and is at least as long as the suffix to cut): if the
    integer lies within [-14, 512] the name is stored in slot
    [integer + 16], replacing whatever was there, and nothing is
    reported; otherwise the table is left as it was and the line is
    appended to the error stream.  In both cases the loop goes on to the
    next line. *)
Theorem range_check_stores_or_reports st line irqid irqnum :
  irqdefs st || strstr line (cs "_IRQn") = true ->
  sscanf_sd line = SD_two irqid irqnum ->
  irqnum < 496 ->
  (length irqid < IRQNAMELEN)%nat ->
  fits_int irqnum = true ->
  (cut_len irqnum <= length irqid)%nat ->
  length (irqname st) = NIRQNAMES ->
  exists st', scan_line st line = Next st'
    /\ (-14 <= irqnum <= 512 ->
          irqname_at (irqname st') (irqnum + 16)
            = take (length irqid - cut_len irqnum) irqid
          /\ errs st' = errs st)
    /\ (~ (-14 <= irqnum <= 512) ->
          irqname st' = irqname st
          /\ errs st' = errs st ++ cs "error: " ++ line ++ [nl]).
Proof.
  intros Hm Hp Hlt Hshort Hint Hcut Hlen.
  exists (accepted_state st line irqid irqnum). split.
  - apply scan_line_accept; assumption.
  - unfold accepted_state. cbv zeta.
    destruct (decide (-14 <= irqnum <= 512)) as [Hin|Hout]; cbn [irqname errs].
    + split; [|tauto]. intros _. split; [|reflexivity].
      apply irqname_at_insert; unfold NIRQNAMES in Hlen; lia.
    + split; [tauto|]. intros _. split; reflexivity.
Qed.

Lemma range_check_stores_or_reports_witness :
  exists st', scan_line scan_init line_minus15 = Next st'
    /\ (-14 <= -15 <= 512 ->
          irqname_at (irqname st') (-15 + 16)
            = take (length (cs "Foo_IRQn") - cut_len (-15)) (cs "Foo_IRQn")
          /\ errs st' = errs scan_init)
    /\ (~ (-14 <= -15 <= 512) ->
          irqname st' = irqname scan_init
          /\ errs st' = errs scan_init ++ cs "error: " ++ line_minus15 ++ [nl]).
Proof.
  apply (range_check_stores_or_reports scan_init line_minus15 (cs "Foo_IRQn") (-15));
    first [reflexivity | lia | vm_compute; lia].
Defined.

(* ------------------------------------------------------------------ *)
(** ** What the scanner keeps true of its state *)

(** The ways one pass can end. *)
Lemma scan_line_cases st line :
  scan_line st line = Undef
  \/ (exists b, let st' := {| irqdefs := b; maxirqn := maxirqn st;
                              irqname := irqname st; errs := errs st |} in
                 scan_line st line = Next st' \/ scan_line st line = Stop st')
  \/ (exists irqid irqnum,
        irqnum < 496 /\ (length irqid < IRQNAMELEN)%nat
        /\ (cut_len irqnum <= length irqid)%nat
        /\ scan_line st line = Next (accepted_state st line irqid irqnum)).
Proof.
  destruct (irqdefs st || strstr line (cs "_IRQn")) eqn:Hm.
  2:{ right; left. exists false. left.
      unfold scan_line. cbv zeta. cbn [irqdefs]. rewrite Hm. reflexivity. }
  assert (forall st1, brace_arm st1 line = Next st1 \/ brace_arm st1 line = Stop st1)
    as Harm.
  { intros st1. unfold brace_arm. destruct (strchr line "}"); auto. }
  destruct (sscanf_sd line) as [|irqid|irqid irqnum] eqn:Hp.
  - right; left. exists true. cbv zeta.
    unfold scan_line. cbv zeta. cbn [irqdefs]. rewrite Hm, Hp.
    destruct (Harm {| irqdefs := true; maxirqn := maxirqn st;
                      irqname := irqname st; errs := errs st |}); auto.
  - unfold scan_line. cbv zeta. cbn [irqdefs]. rewrite Hm, Hp.
    destruct (IRQNAMELEN <=? length irqid)%nat; [left; reflexivity|].
    right; left. exists true. cbv zeta. apply Harm.
  - destruct (Z.ltb_spec irqnum 496) as [Hlt|Hge].
    + destruct (Nat.leb_spec IRQNAMELEN (length irqid)) as [Hbig|Hshort].
      { left. unfold scan_line. cbv zeta. cbn [irqdefs]. rewrite Hm, Hp.
        destruct (Nat.leb_spec IRQNAMELEN (length irqid)); [reflexivity|lia]. }
      destruct (fits_int irqnum) eqn:Hint.
      2:{ left. unfold scan_line. cbv zeta. cbn [irqdefs]. rewrite Hm, Hp, Hint.
          destruct (Nat.leb_spec IRQNAMELEN (length irqid)); [lia|reflexivity]. }
      destruct (Nat.ltb_spec (length irqid) (cut_len irqnum)) as [Hcut|Hcut].
      { left. unfold scan_line. cbv zeta. cbn [irqdefs]. rewrite Hm, Hp, Hint.
        destruct (Nat.leb_spec IRQNAMELEN (length irqid)); [lia|]. cbn [negb].
        destruct (Z.ltb_spec irqnum 496); [|lia].
        destruct (Nat.ltb_spec (length irqid) (cut_len irqnum)); [reflexivity|lia]. }
      right; right. exists irqid, irqnum.
      repeat split; try assumption. apply scan_line_accept; assumption.
    + unfold scan_line. cbv zeta. cbn [irqdefs]. rewrite Hm, Hp.
      destruct (IRQNAMELEN <=? length irqid)%nat; [left; reflexivity|].
      destruct (negb (fits_int irqnum)); [left; reflexivity|].
      destruct (Z.ltb_spec irqnum 496); [lia|].
      right; left. exists true. cbv zeta. apply Harm.
Qed.

Lemma scan_inv_init : scan_inv scan_init.
Proof.
  unfold scan_inv, scan_init. cbn [irqname maxirqn].
  split; [apply length_replicate|]. split; [lia|]. split.
  - intros i Hne. exfalso. apply Hne. unfold irqname_at.
    destruct (replicate NIRQNAMES [] !! Z.to_nat i) as [name|] eqn:Hl; [|reflexivity].
    apply lookup_replicate in Hl. cbn. apply Hl.
  - apply Forall_replicate. unfold IRQNAMELEN. cbn. lia.
Qed.

Lemma scan_inv_accepted st line irqid irqnum :
  scan_inv st ->
  irqnum < 496 -> (length irqid < IRQNAMELEN)%nat ->
  (cut_len irqnum <= length irqid)%nat ->
  scan_inv (accepted_state st line irqid irqnum).
Proof.
  intros (Hlen & Hmax & Hslots & Hshort) Hlt Hfit Hcut.
  assert (1 <= cut_len irqnum)%nat as Hcut1.
  { unfold cut_len. destruct (irqnum >=? 0); lia. }
  unfold accepted_state, scan_inv. cbv zeta.
  destruct (decide (-14 <= irqnum <= 512)) as [Hin|Hout]; cbn [irqname maxirqn].
  - split; [rewrite length_insert; exact Hlen|]. split; [lia|]. split.
    + intros i Hne.
      destruct (decide (Z.to_nat (irqnum + 16) = Z.to_nat i)) as [Heq|Hneq].
      * lia.
      * rewrite irqname_at_insert_ne in Hne by exact Hneq.
        specialize (Hslots i Hne). lia.
    + apply Forall_insert; [exact Hshort|].
      rewrite length_take. unfold IRQNAMELEN in *. lia.
  - split; [exact Hlen|]. split; [lia|]. split; [|exact Hshort].
    intros i Hne. specialize (Hslots i Hne). lia.
Qed.

Lemma scan_inv_step st line st' :
  scan_inv st ->
  scan_line st line = Next st' \/ scan_line st line = Stop st' ->
  scan_inv st'.
Proof.
  intros Hinv Hstep.
  destruct (scan_line_cases st line) as [Hu|[(b & Hb)|(irqid & irqnum & H1 & H2 & H3 & Hacc)]].
  - rewrite Hu in Hstep. destruct Hstep; discriminate.
  - cbv zeta in Hb.
    assert (st' = {| irqdefs := b; maxirqn := maxirqn st;
                     irqname := irqname st; errs := errs st |}) as ->.
    { destruct Hb as [Hb|Hb], Hstep as [Hs|Hs]; rewrite Hb in Hs; congruence. }
    exact Hinv.
  - assert (st' = accepted_state st line irqid irqnum) as ->.
    { destruct Hstep as [Hs|Hs]; rewrite Hacc in Hs; congruence. }
    apply scan_inv_accepted; assumption.
Qed.

Lemma scan_inv_lines lines : forall st st',
  scan_inv st -> scan_lines st lines = Some st' -> scan_inv st'.
Proof.
  induction lines as [|line rest IH]; intros st st' Hinv Hscan; cbn in Hscan.
  - congruence.
  - destruct (scan_line st line) as [st1|st1|] eqn:Hstep.
    + apply (IH st1); [|exact Hscan]. eapply scan_inv_step; eauto.
    + injection Hscan as <-. eapply scan_inv_step; eauto.
    + discriminate.
Qed.

Lemma scan_header_inv content st : scan_header content = Some st -> scan_inv st.
Proof. apply scan_inv_lines, scan_inv_init. Qed.

(* ------------------------------------------------------------------ *)
(** ** What the three output loops emit *)

Lemma elem_of_handler_decls o t m i h :
  (i, h) ∈ handler_decls o t m <-> 2 <= i <= m + 16 /\ decl_handler o t i = Some h.
Proof.
  unfold handler_decls. rewrite list_elem_of_omap. split.
  - intros (j & Hj & Hf). apply elem_of_seqZ in Hj.
    destruct (decl_handler o t j) as [h'|] eqn:Hd; [|discriminate].
    cbn in Hf. injection Hf as <- <-. split; [lia|exact Hd].
  - intros (Hi & Hd). exists i. split; [apply elem_of_seqZ; lia|].
    rewrite Hd. reflexivity.
Qed.

Lemma elem_of_core_vectors o t i h :
  (i, h) ∈ core_vectors o t <-> 2 <= i < 16 /\ core_handler o t i = Some h.
Proof.
  unfold core_vectors. rewrite list_elem_of_omap. split.
  - intros (j & Hj & Hf). apply elem_of_seqZ in Hj.
    destruct (core_handler o t j) as [h'|] eqn:Hd; [|discriminate].
    cbn in Hf. injection Hf as <- <-. split; [lia|exact Hd].
  - intros (Hi & Hd). exists i. split; [apply elem_of_seqZ; lia|].
    rewrite Hd. reflexivity.
Qed.

Lemma elem_of_nvic_vectors o t m k h :
  (k, h) ∈ nvic_vectors o t m <-> 0 <= k <= m /\ nvic_handler o t (k + 16) = Some h.
Proof.
  unfold nvic_vectors. rewrite list_elem_of_omap. split.
  - intros (j & Hj & Hf). apply elem_of_seqZ in Hj.
    destruct (nvic_handler o t j) as [h'|] eqn:Hd; [|discriminate].
    cbn in Hf. injection Hf as <- <-.
    replace (j - 16 + 16) with j by lia. split; [lia|exact Hd].
  - intros (Hk & Hd). exists (k + 16). split; [apply elem_of_seqZ; lia|].
    rewrite Hd. cbn. do 2 f_equal. lia.
Qed.

(* ------------------------------------------------------------------ *)
(** ** The requested vector count *)

Lemma effective_maxirqn_min o maxirqn :
  0 <= nirqns o <= 496 ->
  effective_maxirqn o maxirqn = Z.min maxirqn (nirqns o - 1).
Proof.
  intros Hn. unfold effective_maxirqn, limit_maxirqn, adjust_nirqns, mcuirqns_of.
  destruct (Z.gtb_spec (nirqns o) (maxirqn + 1)), (addirqs o); cbn [andb negb];
    repeat match goal with
           | |- context [?a =? ?b] => destruct (Z.eqb_spec a b); cbn [andb negb]
           | |- context [?a >? ?b] => destruct (Z.gtb_spec a b); cbn [andb negb]
           end; lia.
Qed.

Lemma effective_maxirqn_unset o maxirqn :
  nirqns o = -1 -> effective_maxirqn o maxirqn = maxirqn.
Proof.
  intros Hn. unfold effective_maxirqn, limit_maxirqn, adjust_nirqns, mcuirqns_of.
  rewrite Hn.
  destruct (Z.gtb_spec (-1) (maxirqn + 1)), (addirqs o); cbn [andb negb];
    repeat match goal with
           | |- context [?a =? ?b] => destruct (Z.eqb_spec a b); cbn [andb negb]
           | |- context [?a >? ?b] => destruct (Z.gtb_spec a b); cbn [andb negb]
           end; lia.
Qed.

(** C2: when -n is given (a count from 0 to 496), the last NVIC interrupt
    number the generator uses is [min(max_seen, requested - 1)], and when
    the request is below the MCU's count every index in the emitted NVIC
    table is below the request. *)
Theorem requested_vectors_bound o t maxirqn :
  0 <= nirqns o <= 496 ->
  effective_maxirqn o maxirqn = Z.min maxirqn (nirqns o - 1)
  /\ (nirqns o < mcuirqns_of maxirqn ->
      forall k h, (k, h) ∈ nvic_vectors o t (effective_maxirqn o maxirqn) ->
                  k < nirqns o).
Proof.
  intros Hn. split; [apply effective_maxirqn_min, Hn|].
  intros _ k h Hin. apply elem_of_nvic_vectors in Hin as [Hk _].
  rewrite effective_maxirqn_min in Hk by exact Hn. lia.
Qed.

Lemma requested_vectors_bound_witness :
  effective_maxirqn {| addirqs := true; stdexcnames := false; nirqns := 1 |} 1
    = Z.min 1 (1 - 1)
  /\ (1 < mcuirqns_of 1 ->
      forall k h,
        (k, h) ∈ nvic_vectors {| addirqs := true; stdexcnames := false; nirqns := 1 |}
                   (replicate NIRQNAMES [])
                   (effective_maxirqn
                      {| addirqs := true; stdexcnames := false; nirqns := 1 |} 1) ->
        k < 1).
Proof.
  apply (requested_vectors_bound
           {| addirqs := true; stdexcnames := false; nirqns := 1 |}
           (replicate NIRQNAMES []) 1).
  cbn. lia.
Defined.

(** C3: when -n is given, exceeds the MCU's count [max_seen + 1], and -i
    is off, the count the program goes on with is exactly the MCU's. *)
Theorem clamp_to_mcu_vectors o maxirqn :
  0 <= nirqns o <= 496 ->
  nirqns o > mcuirqns_of maxirqn ->
  addirqs o = false ->
  adjust_nirqns o (mcuirqns_of maxirqn) = mcuirqns_of maxirqn.
Proof.
  intros _ Hgt Hi. unfold adjust_nirqns. rewrite Hi. cbn [negb].
  destruct (Z.gtb_spec (nirqns o) (mcuirqns_of maxirqn)); [reflexivity|lia].
Qed.

Lemma clamp_to_mcu_vectors_witness :
  adjust_nirqns {| addirqs := false; stdexcnames := false; nirqns := 4 |}
    (mcuirqns_of 1) = mcuirqns_of 1.
Proof.
  apply (clamp_to_mcu_vectors {| addirqs := false; stdexcnames := false; nirqns := 4 |} 1);
    first [reflexivity | cbn; lia | unfold mcuirqns_of; cbn; lia].
Defined.

(* ------------------------------------------------------------------ *)
(** ** Short standard names of core exceptions *)

Lemma stdexcname_at_slots i :
  2 <= i < 16 ->
  stdexcname_at i =
    if decide (i = 2) then Some (cs "NMI_")
    else if decide (i = 4) then Some (cs "MemManage_")
    else if decide (i = 11) then Some (cs "SVC_")
    else if decide (i = 12) then Some (cs "DebugMon_")
    else None.
Proof.
  intros Hi.
  assert (i = 2 \/ i = 3 \/ i = 4 \/ i = 5 \/ i = 6 \/ i = 7 \/ i = 8 \/ i = 9
          \/ i = 10 \/ i = 11 \/ i = 12 \/ i = 13 \/ i = 14 \/ i = 15) as Hcases by lia.
  repeat (destruct Hcases as [->|Hcases]; [reflexivity|]).
  subst i. reflexivity.
Qed.

Lemma nonempty_true (s : list ascii) : s <> [] -> nonempty s = true.
Proof. destruct s; [congruence|reflexivity]. Qed.

Lemma effective_maxirqn_core o maxirqn i :
  nirqns o = -1 \/ 0 <= nirqns o <= 496 ->
  i < 16 -> i <= maxirqn + 16 ->
  i <= effective_maxirqn o maxirqn + 16.
Proof.
  intros [Hn|Hn] Hi Hmax.
  - rewrite effective_maxirqn_unset by exact Hn. exact Hmax.
  - rewrite effective_maxirqn_min by exact Hn. lia.
Qed.

(** C7: with -s, a core-exception slot (2..15) that holds a vendor name
    is declared, and entered in [Core_Exceptions], under exactly one
    handler name: the fixed short name for the slots of NMI (2),
    MemManage (4), SVC (11) and DebugMon (12), the vendor name unchanged
    for every other slot. *)
Theorem short_names_for_designated_slots content o st i :
  scan_header content = Some st ->
  stdexcnames o = true ->
  nirqns o = -1 \/ 0 <= nirqns o <= 496 ->
  2 <= i < 16 ->
  irqname_at (irqname st) i <> [] ->
  let name :=
    if decide (i = 2) then cs "NMI_"
    else if decide (i = 4) then cs "MemManage_"
    else if decide (i = 11) then cs "SVC_"
    else if decide (i = 12) then cs "DebugMon_"
    else irqname_at (irqname st) i in
  (forall h, (i, h) ∈ handler_decls o (irqname st) (effective_maxirqn o (maxirqn st))
             <-> h = name ++ cs "Handler")
  /\ (forall h, (i, h) ∈ core_vectors o (irqname st) <-> h = name ++ cs "Handler").
Proof.
  intros Hscan Hs Hn Hi Hne name.
  destruct (scan_header_inv content st Hscan) as (_ & _ & Hslots & _).
  pose proof (Hslots i Hne) as Hslot.
  assert (i <= effective_maxirqn o (maxirqn st) + 16) as Hloop.
  { apply effective_maxirqn_core; [exact Hn|lia|lia]. }
  assert (core_or_vendor_name o (irqname st) i = name) as Hname1.
  { unfold core_or_vendor_name. rewrite Hs. cbn [andb].
    replace (i <? 16) with true by lia.
    rewrite stdexcname_at_slots by exact Hi. subst name.
    repeat case_decide; reflexivity. }
  assert (core_handler o (irqname st) i = Some (name ++ cs "Handler")) as Hname2.
  { unfold core_handler. rewrite nonempty_true by exact Hne. rewrite Hs.
    rewrite stdexcname_at_slots by exact Hi. subst name.
    repeat case_decide; reflexivity. }
  split; intros h.
  - rewrite elem_of_handler_decls. unfold decl_handler.
    rewrite nonempty_true by exact Hne. rewrite Hname1.
    split; [intros [_ Heq]; congruence|intros ->; split; [lia|reflexivity]].
  - rewrite elem_of_core_vectors, Hname2.
    split; [intros [_ Heq]; congruence|intros ->; split; [lia|reflexivity]].
Qed.

Lemma short_names_for_designated_slots_witness :
  exists st, scan_header header1 = Some st
    /\ ((forall h,
          (2, h) ∈ handler_decls {| addirqs := false; stdexcnames := true; nirqns := -1 |}
                     (irqname st)
                     (effective_maxirqn
                        {| addirqs := false; stdexcnames := true; nirqns := -1 |}
                        (maxirqn st))
          <-> h = cs "NMI_" ++ cs "Handler")
        /\ (forall h,
          (2, h) ∈ core_vectors {| addirqs := false; stdexcnames := true; nirqns := -1 |}
                     (irqname st)
          <-> h = cs "NMI_" ++ cs "Handler")).
Proof.
  eexists. split; [vm_compute; reflexivity|].
  apply (short_names_for_designated_slots header1
           {| addirqs := false; stdexcnames := true; nirqns := -1 |} _ 2).
  - vm_compute. reflexivity.
  - reflexivity.
  - left. reflexivity.
  - lia.
  - vm_compute. discriminate.
Defined.

(* ------------------------------------------------------------------ *)
(** ** -i together with -n beyond the MCU's count *)

(** C4: the run the claim describes, evaluated.  The header declares one
    core exception and NVIC interrupts 0 and 1; the options are -i -n 4.
    The heading announces 4 vectors against the MCU's 2, but the NVIC
    table has the two named entries only and no handler is made up for
    index 2 or 3. *)
Theorem unused_beyond_mcu_count_not_emitted :
  parse_options default_options [cs "-i"; cs "-n"; cs "4"; cs "stm32.h"]
    = OptsDone {| addirqs := true; stdexcnames := false; nirqns := 4 |} [cs "stm32.h"]
  /\ exists st text,
       scan_header header1 = Some st
       /\ mcuirqns_of (maxirqn st) = 2
       /\ main world1 [cs "-i"; cs "-n"; cs "4"; cs "stm32.h"]
          = Exited {| exit_code := 0; stdout := []; stderr := [];
                      outfile := Some (cs "startup_stm32.c", text) |}
       /\ strstr text (cs "    4 NVIC IRQ vectors (MCU defines 2).") = true
       /\ strstr text (cs "IRQ2_IRQHandler") = false
       /\ strstr text (cs "IRQ3_IRQHandler") = false
       /\ nvic_vectors {| addirqs := true; stdexcnames := false; nirqns := 4 |}
            (irqname st)
            (effective_maxirqn {| addirqs := true; stdexcnames := false; nirqns := 4 |}
               (maxirqn st))
          = [(0, cs "WWDG_IRQHandler"); (1, cs "PVD_IRQHandler")].
Proof.
  split; [reflexivity|].
  eexists. eexists.
  split; [vm_compute; reflexivity|].
  split; [reflexivity|].
  split; [vm_compute; reflexivity|].
  repeat split; vm_compute; reflexivity.
Qed.

(* ------------------------------------------------------------------ *)
(** ** Exit paths of [main] *)

(** C9: a run whose output file cannot be created, evaluated.  The test
    after [fopen(ofname, "w")] looks at the input stream, so the failure
    is not caught: nothing is reported, no exit code 2 is returned, and
    the first [fprintf] receives a null stream. *)
Theorem uncreatable_output_not_caught :
  fopen_r world_readonly (cs "stm32.h") = Some header1
  /\ fopen_w world_readonly (cs "startup_stm32.c") = false
  /\ main world_readonly [cs "stm32.h"] = UndefinedBehaviour.
Proof.
  split; [reflexivity|]. split; [reflexivity|]. vm_compute. reflexivity.
Qed.

(** C10: when at least one argument is given and the option loop uses up
    all of them, the program writes [file not specified] to the error
    stream and returns 1, which is none of 0, 2, 3 and 4. *)
Theorem no_input_file_exits_1 w args o :
  args <> [] ->
  parse_options default_options args = OptsDone o [] ->
  main w args = Exited {| exit_code := 1; stdout := [];
                          stderr := ln "file not specified"; outfile := None |}
  /\ 1 ∉ [0; ERR_NOFILE; ERR_BADFORMAT; ERR_BADOPT].
Proof.
  intros Hargs Hparse. split.
  - destruct args as [|a rest]; [congruence|].
    unfold main. rewrite Hparse. reflexivity.
  - unfold ERR_NOFILE, ERR_BADFORMAT, ERR_BADOPT.
    rewrite !elem_of_cons, elem_of_nil. lia.
Qed.

Lemma no_input_file_exits_1_witness :
  main world1 [cs "-s"; cs "-n"; cs "8"]
    = Exited {| exit_code := 1; stdout := [];
                stderr := ln "file not specified"; outfile := None |}
  /\ 1 ∉ [0; ERR_NOFILE; ERR_BADFORMAT; ERR_BADOPT].
Proof.
  apply (no_input_file_exits_1 world1 [cs "-s"; cs "-n"; cs "8"]
           {| addirqs := false; stdexcnames := true; nirqns := 8 |}).
  - discriminate.
  - reflexivity.
Defined.

(* ------------------------------------------------------------------ *)
(** ** The run as a function of options and header text *)

(** C8: two runs that return, with the same options, the same input file
    name and the same header text, end in the same state: same scanned
    table, same output file name and text byte for byte, same error
    stream and exit code.  Nothing else of the file system, and no
    argument after the file name, has any influence. *)
Theorem same_input_same_output w1 w2 args1 args2 o in_name rest1 rest2 content e1 e2 :
  parse_options default_options args1 = OptsDone o (in_name :: rest1) ->
  parse_options default_options args2 = OptsDone o (in_name :: rest2) ->
  fopen_r w1 in_name = Some content ->
  fopen_r w2 in_name = Some content ->
  main w1 args1 = Exited e1 ->
  main w2 args2 = Exited e2 ->
  e1 = e2
  /\ exists st ofname,
       scan_header content = Some st
       /\ outfile e1 = Some (ofname, output_text o st ofname (get_stripped_name in_name)).
Proof.
  intros Hp1 Hp2 Hr1 Hr2 Hm1 Hm2.
  destruct args1 as [|a1 r1]; [cbn in Hp1; discriminate|].
  destruct args2 as [|a2 r2]; [cbn in Hp2; discriminate|].
  unfold main in Hm1, Hm2.
  rewrite Hp1, Hr1 in Hm1. rewrite Hp2, Hr2 in Hm2.
  destruct (scan_header content) as [st|]; [|discriminate].
  destruct (make_ofname (get_stripped_name in_name)) as [ofname|]; [|discriminate].
  cbv zeta in Hm1, Hm2.
  destruct (fopen_w w1 ofname); [|discriminate].
  destruct (fopen_w w2 ofname); [|discriminate].
  injection Hm1 as <-. injection Hm2 as <-.
  split; [reflexivity|]. exists st, ofname. split; reflexivity.
Qed.

Lemma same_input_same_output_witness :
  exists e1 e2,
    main world1 [cs "-i"; cs "-s"; cs "stm32.h"] = Exited e1
    /\ main world1' [cs "-s"; cs "-i"; cs "stm32.h"; cs "other.h"] = Exited e2
    /\ e1 = e2
    /\ exists st ofname,
         scan_header header1 = Some st
         /\ outfile e1
            = Some (ofname,
                    output_text {| addirqs := true; stdexcnames := true; nirqns := -1 |}
                      st ofname (get_stripped_name (cs "stm32.h"))).
Proof.
  eexists. eexists.
  split; [vm_compute; reflexivity|].
  split; [vm_compute; reflexivity|].
  apply (same_input_same_output world1 world1'
           [cs "-i"; cs "-s"; cs "stm32.h"] [cs "-s"; cs "-i"; cs "stm32.h"; cs "other.h"]
           {| addirqs := true; stdexcnames := true; nirqns := -1 |}
           (cs "stm32.h") [] [cs "other.h"] header1);
    vm_compute; reflexivity.
Defined.

(* ------------------------------------------------------------------ *)
(** ** [get_stripped_name] and the output file name *)

Lemma eqc_eq (a b : ascii) : eqc a b = true <-> a = b.
Proof. apply Ascii.eqb_eq. Qed.

Lemma eqc_refl (a : ascii) : eqc a a = true.
Proof. apply Ascii.eqb_refl. Qed.

Lemma strchr_app (a b : list ascii) (c : ascii) :
  strchr (a ++ b) c = strchr a c || strchr b c.
Proof.
  induction a as [|x a IH]; cbn; [reflexivity|].
  rewrite IH. apply orb_assoc.
Qed.

Lemma strrchr_none (s : list ascii) (c : ascii) :
  strrchr s c = None <-> strchr s c = false.
Proof.
  induction s as [|x r IH]; cbn; [tauto|].
  destruct (strrchr r c) as [t|].
  - split; [discriminate|]. intros H. apply orb_false_elim in H as [_ H].
    apply IH in H. discriminate.
  - assert (strchr r c = false) as -> by (apply IH; reflexivity).
    rewrite orb_false_r. destruct (eqc x c); split; congruence.
Qed.

Lemma strrchr_some (s t : list ascii) (c : ascii) :
  strrchr s c = Some t ->
  exists pre rest, s = pre ++ c :: rest /\ t = c :: rest /\ strchr rest c = false.
Proof.
  revert t. induction s as [|x r IH]; intros t; cbn; [discriminate|].
  destruct (strrchr r c) as [t'|] eqn:Hr.
  - intros [= <-]. destruct (IH t' eq_refl) as (pre & rest & -> & -> & Hno).
    exists (x :: pre), rest. auto.
  - destruct (eqc x c) eqn:Hx; [|discriminate].
    intros [= <-]. apply eqc_eq in Hx as ->.
    exists [], r. repeat split. apply strrchr_none, Hr.
Qed.

Lemma strrchr_last (pre rest : list ascii) (c : ascii) :
  strchr rest c = false -> strrchr (pre ++ c :: rest) c = Some (c :: rest).
Proof.
  intros Hno. induction pre as [|x pre IH]; cbn.
  - apply strrchr_none in Hno. rewrite Hno, eqc_refl. reflexivity.
  - cbn in IH. rewrite IH. reflexivity.
Qed.

(** X1: the stripped name is always the tail end of the given path and
    never contains a slash; when the path has no slash at all, it
    contains no backslash either; a path with neither separator is
    returned as it is. *)
Theorem stripped_name_is_last_component (name : list ascii) :
  (exists dir, name = dir ++ get_stripped_name name)
  /\ strchr (get_stripped_name name) "/" = false
  /\ (strchr name "/" = false -> strchr (get_stripped_name name) "\" = false)
  /\ (strchr name "/" = false -> strchr name "\" = false ->
      get_stripped_name name = name).
Proof.
  unfold get_stripped_name.
  destruct (strrchr name "/") as [t|] eqn:Hs.
  - destruct (strrchr_some _ _ _ Hs) as (pre & rest & -> & -> & Hno).
    cbn [drop]. rewrite drop_0. repeat split.
    + exists (pre ++ ["/"%char]). rewrite <- (assoc_L (++)). reflexivity.
    + exact Hno.
    + intros Hnone. apply strrchr_none in Hnone. congruence.
    + intros Hnone. apply strrchr_none in Hnone. congruence.
  - pose proof (proj1 (strrchr_none _ _) Hs) as Hnoslash.
    destruct (strrchr name "\") as [t|] eqn:Hb.
    + destruct (strrchr_some _ _ _ Hb) as (pre & rest & -> & -> & Hno).
      cbn [drop]. rewrite drop_0. repeat split.
      * exists (pre ++ ["\"%char]). rewrite <- (assoc_L (++)). reflexivity.
      * rewrite strchr_app in Hnoslash. apply orb_false_elim in Hnoslash as [_ H].
        cbn in H. exact H.
      * intros _. exact Hno.
      * intros _ Hnone. apply strrchr_none in Hnone. congruence.
    + repeat split.
      * exists []. reflexivity.
      * exact Hnoslash.
      * intros _. apply strrchr_none, Hb.
Qed.

(** X2: for an input path [dir/base.x] whose last component [base.x] has
    no slash, the output file is [startup_base.c] in the current
    directory: the directory part is dropped and the last character,
    whatever it is, becomes [c].  For a path that ends in a slash the
    name is [startupc]: the final character of the prefix is the one
    replaced. *)
Theorem output_name_of_path (dir base : list ascii) (x : ascii) :
  strchr (base ++ [x]) "/" = false ->
  (length base < 191)%nat ->
  make_ofname (get_stripped_name (dir ++ cs "/" ++ base ++ [x]))
    = Some (cs "startup_" ++ base ++ cs "c")
  /\ make_ofname (get_stripped_name (dir ++ cs "/")) = Some (cs "startupc").
Proof.
  intros Hno Hlen. split.
  - unfold get_stripped_name. change (cs "/") with ["/"%char].
    cbn [app]. rewrite (strrchr_last dir (base ++ [x]) "/" Hno).
    cbn [drop]. rewrite drop_0. unfold make_ofname. cbv zeta.
    assert (length (cs "startup_" ++ base ++ [x]) = (length base + 9)%nat) as Hl.
    { rewrite !length_app. cbn. lia. }
    rewrite Hl. unfold OFNAMELEN.
    destruct (Nat.leb_spec 200 (length base + 9)); [lia|].
    f_equal.
    replace (length base + 9 - 1)%nat
      with (length (cs "startup_" ++ base)) by (rewrite length_app; cbn; lia).
    rewrite (assoc_L (++) (cs "startup_") base [x]).
    rewrite take_app_length. rewrite <- (assoc_L (++)). reflexivity.
  - unfold get_stripped_name. change (cs "/") with ["/"%char].
    rewrite (strrchr_last dir [] "/" eq_refl). reflexivity.
Qed.

Lemma output_name_of_path_witness :
  make_ofname (get_stripped_name (cs "../inc" ++ cs "/" ++ cs "stm32f1xx.hp" ++ ["p"%char]))
    = Some (cs "startup_" ++ cs "stm32f1xx.hp" ++ cs "c")
  /\ make_ofname (get_stripped_name (cs "../inc" ++ cs "/")) = Some (cs "startupc").
Proof.
  apply (output_name_of_path (cs "../inc") (cs "stm32f1xx.hp") "p"%char).
  - reflexivity.
  - cbn. lia.
Defined.

(* ------------------------------------------------------------------ *)
(** ** The option loop *)

Lemma eqc_sym (a b : ascii) : eqc a b = eqc b a.
Proof. apply Ascii.eqb_sym. Qed.

(** What the option loop guarantees when it ends normally, by induction
    on a bound for the number of arguments (the [-n] case skips two). *)
Lemma parse_options_done (n : nat) : forall args o o' rest,
  (length args <= n)%nat ->
  parse_options o args = OptsDone o' rest ->
  (nirqns o = -1 \/ 0 <= nirqns o <= 496 -> nirqns o' = -1 \/ 0 <= nirqns o' <= 496)
  /\ (addirqs o = true -> addirqs o' = true)
  /\ (stdexcnames o = true -> stdexcnames o' = true)
  /\ rest `suffix_of` args
  /\ (forall in_name r, rest = in_name :: r -> starts_with (cs "-") in_name = false).
Proof.
  induction n as [|n IH]; intros args o o' rest Hlen Hparse.
  - destruct args; [|cbn in Hlen; lia]. cbn in Hparse. injection Hparse as <- <-.
    split; [tauto|]. split; [tauto|]. split; [tauto|]. split; [reflexivity|].
    discriminate.
  - destruct args as [|arg rest0].
    { cbn in Hparse. injection Hparse as <- <-.
      split; [tauto|]. split; [tauto|]. split; [tauto|]. split; [reflexivity|].
      discriminate. }
    cbn [length] in Hlen. cbn [parse_options] in Hparse.
    destruct arg as [|c0 arg1].
    { injection Hparse as <- <-.
      split; [tauto|]. split; [tauto|]. split; [tauto|]. split; [reflexivity|].
      intros in_name r [= <- _]. reflexivity. }
    destruct (eqc c0 "-") eqn:Hc0.
    2:{ injection Hparse as <- <-.
        split; [tauto|]. split; [tauto|]. split; [tauto|]. split; [reflexivity|].
        intros in_name r [= <- _].
        change (starts_with (cs "-") (c0 :: arg1)) with (eqc "-" c0 && true).
        rewrite eqc_sym, Hc0. reflexivity. }
    destruct arg1 as [|c1 arg2]; [discriminate|].
    destruct (eqc c1 "n").
    { destruct rest0 as [|v rest']; [discriminate|].
      destruct (scan_d v) as [[nv tl]|]; [|discriminate].
      destruct (negb (fits_int nv)); [discriminate|].
      destruct ((nv <? 0) || (nv >? 496)) eqn:Hrange; [discriminate|].
      cbn [length] in Hlen.
      destruct (IH rest' _ o' rest ltac:(lia) Hparse) as (Hn & Hi & Hs & Hsuf & Hdash).
      cbn [nirqns addirqs stdexcnames] in Hn, Hi, Hs.
      apply orb_false_elim in Hrange as [H0 H496].
      split; [intros _; apply Hn; right; lia|].
      split; [exact Hi|]. split; [exact Hs|].
      split; [do 2 apply suffix_cons_r; exact Hsuf|exact Hdash]. }
    destruct (eqc c1 "i").
    { destruct (IH rest0 _ o' rest ltac:(lia) Hparse) as (Hn & Hi & Hs & Hsuf & Hdash).
      cbn [nirqns addirqs stdexcnames] in Hn, Hi, Hs.
      split; [exact Hn|]. split; [intros _; apply Hi; reflexivity|].
      split; [exact Hs|].
      split; [apply suffix_cons_r; exact Hsuf|exact Hdash]. }
    destruct (eqc c1 "s"); [|discriminate].
    destruct (IH rest0 _ o' rest ltac:(lia) Hparse) as (Hn & Hi & Hs & Hsuf & Hdash).
    cbn [nirqns addirqs stdexcnames] in Hn, Hi, Hs.
    split; [exact Hn|]. split; [exact Hi|].
    split; [intros _; apply Hs; reflexivity|].
    split; [apply suffix_cons_r; exact Hsuf|exact Hdash].
Qed.

(** Every way the option loop gives up. *)
Lemma parse_options_fail (n : nat) : forall args o code err,
  (length args <= n)%nat ->
  parse_options o args = OptsFail code err ->
  code = ERR_BADOPT /\ err <> [].
Proof.
  induction n as [|n IH]; intros args o code err Hlen Hparse.
  - destruct args; [|cbn in Hlen; lia]. discriminate.
  - destruct args as [|arg rest0]; [discriminate|].
    cbn [length] in Hlen. cbn [parse_options] in Hparse.
    destruct arg as [|c0 arg1]; [discriminate|].
    destruct (eqc c0 "-"); [|discriminate].
    destruct arg1 as [|c1 arg2].
    { injection Hparse as <- <-. split; [reflexivity|discriminate]. }
    destruct (eqc c1 "n").
    { destruct rest0 as [|v rest'].
      { injection Hparse as <- <-. split; [reflexivity|discriminate]. }
      destruct (scan_d v) as [[nv tl]|].
      2:{ injection Hparse as <- <-. split; [reflexivity|discriminate]. }
      destruct (negb (fits_int nv)); [discriminate|].
      destruct ((nv <? 0) || (nv >? 496)).
      { injection Hparse as <- <-. split; [reflexivity|discriminate]. }
      cbn [length] in Hlen. eapply (IH rest'); [lia|exact Hparse]. }
    destruct (eqc c1 "i"); [eapply (IH rest0); [lia|exact Hparse]|].
    destruct (eqc c1 "s"); [eapply (IH rest0); [lia|exact Hparse]|].
    injection Hparse as <- <-. split; [reflexivity|discriminate].
Qed.

(** X3: when the option loop ends normally, the vector count is either
    still unset (-1) or within 0..496, the arguments left over are a tail
    of the command line, and the first of them, the input file name,
    does not begin with a dash. *)
Theorem options_result_valid args o rest :
  parse_options default_options args = OptsDone o rest ->
  (nirqns o = -1 \/ 0 <= nirqns o <= 496)
  /\ rest `suffix_of` args
  /\ (forall in_name r, rest = in_name :: r -> starts_with (cs "-") in_name = false).
Proof.
  intros Hparse.
  destruct (parse_options_done (length args) args default_options o rest
              (Nat.le_refl _) Hparse) as (Hn & _ & _ & Hsuf & Hdash).
  split; [apply Hn; left; reflexivity|]. split; assumption.
Qed.

Lemma options_result_valid_witness :
  (nirqns {| addirqs := true; stdexcnames := false; nirqns := 12 |} = -1
   \/ 0 <= nirqns {| addirqs := true; stdexcnames := false; nirqns := 12 |} <= 496)
  /\ [cs "dev.h"; cs "-s"] `suffix_of` [cs "-n"; cs "12"; cs "-i"; cs "dev.h"; cs "-s"]
  /\ (forall in_name r, [cs "dev.h"; cs "-s"] = in_name :: r ->
        starts_with (cs "-") in_name = false).
Proof.
  apply (options_result_valid [cs "-n"; cs "12"; cs "-i"; cs "dev.h"; cs "-s"]
           {| addirqs := true; stdexcnames := false; nirqns := 12 |}
           [cs "dev.h"; cs "-s"]).
  reflexivity.
Defined.

(* ------------------------------------------------------------------ *)
(** ** Exit codes *)

(** X4: a run that returns does so with code 0, 1, 2 or 4, never with 3
    ([ERR_BADFORMAT]); a non-zero code comes with a message on the error
    stream, nothing on standard output and no output file; an output
    file is written only by a run that returns 0. *)
Theorem exit_codes_of_main w args e :
  main w args = Exited e ->
  exit_code e ∈ [0; 1; ERR_NOFILE; ERR_BADOPT]
  /\ exit_code e <> ERR_BADFORMAT
  /\ (exit_code e <> 0 -> outfile e = None /\ stdout e = [] /\ stderr e <> [])
  /\ (outfile e <> None -> exit_code e = 0 /\ stdout e = []).
Proof.
  intros Hmain.
  assert (forall code err, err <> [] -> code = 1 \/ code = ERR_NOFILE \/ code = ERR_BADOPT ->
            fail code err = Exited e ->
            exit_code e ∈ [0; 1; ERR_NOFILE; ERR_BADOPT]
            /\ exit_code e <> ERR_BADFORMAT
            /\ (exit_code e <> 0 -> outfile e = None /\ stdout e = [] /\ stderr e <> [])
            /\ (outfile e <> None -> exit_code e = 0 /\ stdout e = [])) as Hfail.
  { intros code err Herr Hcode [= <-]. cbn [exit_code outfile stdout stderr].
    unfold ERR_NOFILE, ERR_BADOPT, ERR_BADFORMAT in *.
    rewrite !elem_of_cons, elem_of_nil.
    repeat split; try assumption; try congruence; lia. }
  unfold main in Hmain. destruct args as [|a rest].
  { injection Hmain as <-. cbn [exit_code outfile stdout stderr].
    unfold ERR_NOFILE, ERR_BADOPT, ERR_BADFORMAT.
    rewrite !elem_of_cons. repeat split; try congruence; auto. }
  destruct (parse_options default_options (a :: rest)) as [o [|in_name r]|code err|] eqn:Hp.
  - apply (Hfail 1 (ln "file not specified")); [discriminate|auto|exact Hmain].
  - cbv zeta in Hmain. destruct (fopen_r w in_name) as [content|].
    + destruct (scan_header content) as [st|]; [|discriminate].
      destruct (make_ofname (get_stripped_name in_name)) as [ofname|]; [|discriminate].
      destruct (fopen_w w ofname); [|discriminate].
      injection Hmain as <-. cbn [exit_code outfile stdout stderr].
      unfold ERR_NOFILE, ERR_BADOPT, ERR_BADFORMAT.
      rewrite !elem_of_cons. repeat split; try congruence; auto.
    + apply (Hfail ERR_NOFILE (in_name ++ cs " file not found" ++ [nl]));
        [destruct in_name; discriminate|auto|exact Hmain].
  - destruct (parse_options_fail _ _ _ _ _ (Nat.le_refl _) Hp) as [-> Herr].
    apply (Hfail ERR_BADOPT err); [exact Herr|auto|exact Hmain].
  - discriminate.
Qed.

Lemma exit_codes_of_main_witness :
  exists e, main world1 [cs "-n"; cs "497"; cs "stm32.h"] = Exited e
    /\ exit_code e ∈ [0; 1; ERR_NOFILE; ERR_BADOPT]
    /\ exit_code e <> ERR_BADFORMAT
    /\ (exit_code e <> 0 -> outfile e = None /\ stdout e = [] /\ stderr e <> [])
    /\ (outfile e <> None -> exit_code e = 0 /\ stdout e = []).
Proof.
  eexists. split; [vm_compute; reflexivity|].
  apply (exit_codes_of_main world1 [cs "-n"; cs "497"; cs "stm32.h"]).
  vm_compute. reflexivity.
Defined.

(** X5: when the input file cannot be opened, the program writes
    [<name> file not found] to the error stream and returns 2, whatever
    the options were and whether or not an output file could have been
    created; no output file is produced. *)
Theorem missing_input_exits_2 w args o in_name rest :
  parse_options default_options args = OptsDone o (in_name :: rest) ->
  fopen_r w in_name = None ->
  main w args = Exited {| exit_code := 2; stdout := [];
                          stderr := in_name ++ cs " file not found" ++ [nl];
                          outfile := None |}.
Proof.
  intros Hp Hopen. destruct args as [|a r]; [cbn in Hp; discriminate|].
  unfold main. rewrite Hp. cbv zeta. rewrite Hopen. reflexivity.
Qed.

Lemma missing_input_exits_2_witness :
  main world1 [cs "-i"; cs "-n"; cs "30"; cs "nosuch.h"]
  = Exited {| exit_code := 2; stdout := [];
              stderr := cs "nosuch.h" ++ cs " file not found" ++ [nl];
              outfile := None |}.
Proof.
  apply (missing_input_exits_2 world1 [cs "-i"; cs "-n"; cs "30"; cs "nosuch.h"]
           {| addirqs := true; stdexcnames := false; nirqns := 30 |} (cs "nosuch.h") []);
    reflexivity.
Defined.

(* ------------------------------------------------------------------ *)
(** ** What a scan never undoes *)

Lemma scan_line_marker st line st' :
  scan_line st line = Next st' \/ scan_line st line = Stop st' ->
  irqdefs st' = irqdefs st || strstr line (cs "_IRQn").
Proof.
  intros Hstep.
  destruct (irqdefs st || strstr line (cs "_IRQn")) eqn:Hm.
  - destruct (scan_line_cases st line)
      as [Hu|[(b & Hb)|(irqid & irqnum & _ & _ & _ & Hacc)]].
    + rewrite Hu in Hstep. destruct Hstep; discriminate.
    + (* the marker is known: every arm keeps [irqdefs = true] *)
      unfold scan_line, brace_arm in Hstep. cbv zeta in Hstep.
      cbn [irqdefs maxirqn irqname errs] in Hstep. rewrite Hm in Hstep.
      repeat match type of Hstep with
             | context [match ?x with _ => _ end] => destruct x
             end;
        destruct Hstep as [Hs|Hs]; try discriminate; injection Hs as <-; reflexivity.
    + assert (st' = accepted_state st line irqid irqnum) as ->.
      { destruct Hstep as [Hs|Hs]; rewrite Hacc in Hs; congruence. }
      unfold accepted_state. cbv zeta. case_decide; reflexivity.
  - unfold scan_line in Hstep. cbv zeta in Hstep. cbn [irqdefs] in Hstep.
    rewrite Hm in Hstep. destruct Hstep as [Hs|Hs]; [|discriminate].
    injection Hs as <-. reflexivity.
Qed.

Lemma scan_line_grows st line st' :
  scan_line st line = Next st' \/ scan_line st line = Stop st' ->
  maxirqn st <= maxirqn st'
  /\ errs st `prefix_of` errs st'
  /\ length (irqname st') = length (irqname st).
Proof.
  intros Hstep.
  destruct (scan_line_cases st line)
    as [Hu|[(b & Hb)|(irqid & irqnum & _ & _ & _ & Hacc)]].
  - rewrite Hu in Hstep. destruct Hstep; discriminate.
  - cbv zeta in Hb.
    assert (st' = {| irqdefs := b; maxirqn := maxirqn st;
                     irqname := irqname st; errs := errs st |}) as ->.
    { destruct Hb as [Hb|Hb], Hstep as [Hs|Hs]; rewrite Hb in Hs; congruence. }
    cbn. split; [lia|]. split; reflexivity.
  - assert (st' = accepted_state st line irqid irqnum) as ->.
    { destruct Hstep as [Hs|Hs]; rewrite Hacc in Hs; congruence. }
    unfold accepted_state. cbv zeta.
    case_decide; cbn [maxirqn errs irqname].
    + split; [lia|]. split; [reflexivity|apply length_insert].
    + split; [lia|]. split; [apply prefix_app_r; reflexivity|reflexivity].
Qed.

(** X6: over any stretch of lines, [maxirqn] never goes down, the marker
    flag once set stays set, what was written to the error stream stays
    there (new reports are appended), and the table keeps its size. *)
Theorem scan_never_undoes lines : forall st st',
  scan_lines st lines = Some st' ->
  maxirqn st <= maxirqn st'
  /\ (irqdefs st = true -> irqdefs st' = true)
  /\ errs st `prefix_of` errs st'
  /\ length (irqname st') = length (irqname st).
Proof.
  induction lines as [|line rest IH]; intros st st' Hscan; cbn in Hscan.
  - injection Hscan as <-. split; [lia|]. split; [tauto|]. split; reflexivity.
  - assert (forall st1, scan_line st line = Next st1 \/ scan_line st line = Stop st1 ->
              maxirqn st <= maxirqn st1
              /\ (irqdefs st = true -> irqdefs st1 = true)
              /\ errs st `prefix_of` errs st1
              /\ length (irqname st1) = length (irqname st)) as Hone.
    { intros st1 Hstep. destruct (scan_line_grows st line st1 Hstep) as (Hm & He & Hl).
      split; [exact Hm|]. split; [|split; assumption].
      intros Hd. rewrite (scan_line_marker st line st1 Hstep), Hd. reflexivity. }
    destruct (scan_line st line) as [st1|st1|] eqn:Hstep; [| |discriminate].
    + destruct (Hone st1 (or_introl eq_refl)) as (Hm & Hd & He & Hl).
      destruct (IH st1 st' Hscan) as (Hm' & Hd' & He' & Hl').
      split; [lia|]. split; [tauto|]. split; [etrans; eassumption|congruence].
    + injection Hscan as <-. apply Hone. right. reflexivity.
Qed.

Lemma scan_never_undoes_witness :
  exists st', scan_lines scan_init (fgets_all MAXLINELEN header_late) = Some st'
    /\ maxirqn scan_init <= maxirqn st'
    /\ (irqdefs scan_init = true -> irqdefs st' = true)
    /\ errs scan_init `prefix_of` errs st'
    /\ length (irqname st') = length (irqname scan_init).
Proof.
  eexists. split; [vm_compute; reflexivity|].
  apply (scan_never_undoes (fgets_all MAXLINELEN header_late) scan_init).
  vm_compute. reflexivity.
Defined.

(* ------------------------------------------------------------------ *)
(** ** Bounds the scanner guarantees to the generator *)

(** X7: whatever the header, a scan that is defined leaves [maxirqn]
    within -15..495, so the generator loops, which run to slot
    [maxirqn + 16], stay inside the 512 slots of [irqname]; every
    non-empty name sits in a slot from 2 to [maxirqn + 16]; and every
    name has at most 30 characters. *)
Theorem scan_result_bounds content st :
  scan_header content = Some st ->
  length (irqname st) = 512%nat
  /\ -15 <= maxirqn st <= 495
  /\ (forall i, irqname_at (irqname st) i <> [] -> 2 <= i <= maxirqn st + 16 /\ i < 512)
  /\ (forall i, (length (irqname_at (irqname st) i) <= 30)%nat).
Proof.
  intros Hscan.
  destruct (scan_header_inv content st Hscan) as (Hlen & Hmax & Hslots & Hshort).
  split; [exact Hlen|]. split; [exact Hmax|]. split.
  - intros i Hne. specialize (Hslots i Hne). lia.
  - intros i. unfold irqname_at.
    destruct (irqname st !! Z.to_nat i) as [name|] eqn:Hl; cbn; [|lia].
    apply (proj1 (Forall_lookup _ _) Hshort) in Hl. unfold IRQNAMELEN in Hl. lia.
Qed.

Lemma scan_result_bounds_witness :
  exists st, scan_header header_late = Some st
    /\ length (irqname st) = 512%nat
    /\ -15 <= maxirqn st <= 495
    /\ (forall i, irqname_at (irqname st) i <> [] -> 2 <= i <= maxirqn st + 16 /\ i < 512)
    /\ (forall i, (length (irqname_at (irqname st) i) <= 30)%nat).
Proof.
  eexists. split; [vm_compute; reflexivity|].
  apply (scan_result_bounds header_late). vm_compute. reflexivity.
Defined.

(* ------------------------------------------------------------------ *)
(** ** Lines with a non-negative integer *)

Lemma skip_space_head (s t : list ascii) (c : ascii) :
  skip_space s = c :: t -> isspace c = false.
Proof.
  induction s as [|x r IH]; cbn [skip_space]; [discriminate|].
  destruct (isspace x) eqn:Hx; [exact IH|]. intros [= <- _]. exact Hx.
Qed.

Lemma span_nonspace_token (c : ascii) (t : list ascii) :
  isspace c = false -> exists w, (span_nonspace (c :: t)).1 = c :: w.
Proof.
  intros Hc. cbn [span_nonspace]. rewrite Hc.
  destruct (span_nonspace t) as [w r]. exists w. reflexivity.
Qed.

(** [%s] never delivers an empty token. *)
Lemma sscanf_sd_token_nonempty line irqid irqnum :
  sscanf_sd line = SD_two irqid irqnum -> (1 <= length irqid)%nat.
Proof.
  unfold sscanf_sd, scan_s. intros Hp.
  destruct (skip_space line) as [|c t] eqn:Hskip; [discriminate|].
  destruct (span_nonspace_token c t (skip_space_head _ _ _ Hskip)) as (w & Hw).
  destruct (span_nonspace (c :: t)) as [tok r1]. cbn in Hw. subst tok.
  destruct (skip_space r1) as [|c' r2]; [discriminate|].
  destruct (eqc c' "="); [|discriminate].
  destruct (scan_d r2) as [[n tl]|]; [|discriminate].
  injection Hp as <- _. cbn. lia.
Qed.

(** X8: once the marker has been seen, a line that reads as an
    identifier of fewer than 32 characters and a non-negative integer
    below 496 is always taken: the pass is defined, nothing goes to the
    error stream, [maxirqn] becomes the larger of its old value and the
    integer, and the loop goes on even when the line holds a closing
    brace. *)
Theorem nonneg_entry_always_taken st line irqid irqnum :
  irqdefs st || strstr line (cs "_IRQn") = true ->
  sscanf_sd line = SD_two irqid irqnum ->
  0 <= irqnum < 496 ->
  (length irqid < IRQNAMELEN)%nat ->
  exists st', scan_line st line = Next st'
    /\ maxirqn st' = Z.max (maxirqn st) irqnum
    /\ errs st' = errs st
    /\ irqname st' = <[Z.to_nat (irqnum + 16) := take (length irqid - 1) irqid]> (irqname st).
Proof.
  intros Hm Hp Hrange Hshort.
  pose proof (sscanf_sd_token_nonempty line irqid irqnum Hp) as Hne.
  assert (cut_len irqnum = 1%nat) as Hcut.
  { unfold cut_len. replace (irqnum >=? 0) with true by lia. reflexivity. }
  exists (accepted_state st line irqid irqnum). split.
  - apply scan_line_accept; try assumption; [lia| |lia].
    unfold fits_int, INT_MIN, INT_MAX. lia.
  - unfold accepted_state. cbv zeta. rewrite Hcut.
    destruct (decide (-14 <= irqnum <= 512)); [|lia].
    cbn [maxirqn errs irqname]. repeat split.
Qed.

Lemma nonneg_entry_always_taken_witness :
  exists st', scan_line scan_init (cs "TIM2_IRQn = 28 };") = Next st'
    /\ maxirqn st' = Z.max (maxirqn scan_init) 28
    /\ errs st' = errs scan_init
    /\ irqname st'
       = <[Z.to_nat (28 + 16) := take (length (cs "TIM2_IRQn") - 1) (cs "TIM2_IRQn")]>
           (irqname scan_init).
Proof.
  apply (nonneg_entry_always_taken scan_init (cs "TIM2_IRQn = 28 };") (cs "TIM2_IRQn") 28);
    first [reflexivity | lia | vm_compute; lia].
Defined.

(* ------------------------------------------------------------------ *)
(** ** A header without the marker *)

Lemma starts_with_app (p b : list ascii) : starts_with p (p ++ b) = true.
Proof.
  induction p as [|x p IH]; [reflexivity|]. cbn. rewrite eqc_refl. exact IH.
Qed.

Lemma starts_with_inv (p s : list ascii) :
  starts_with p s = true -> exists b, s = p ++ b.
Proof.
  revert s. induction p as [|x p IH]; intros s Hs.
  - exists s. reflexivity.
  - destruct s as [|y s]; [discriminate|]. cbn in Hs.
    apply andb_prop in Hs as [Hxy Hrest]. apply eqc_eq in Hxy as ->.
    destruct (IH s Hrest) as (b & ->). exists b. reflexivity.
Qed.

Lemma strstr_infix (s p : list ascii) :
  strstr s p = true <-> exists a b, s = a ++ p ++ b.
Proof.
  split.
  - induction s as [|x r IH]; cbn [strstr]; intros Hs.
    + rewrite orb_false_r in Hs. apply starts_with_inv in Hs as (b & Hb).
      exists [], b. exact Hb.
    + apply orb_prop in Hs as [Hs|Hs].
      * apply starts_with_inv in Hs as (b & Hb). exists [], b. exact Hb.
      * destruct (IH Hs) as (a & b & ->). exists (x :: a), b. reflexivity.
  - intros (a & b & ->). induction a as [|x a IH].
    + cbn [app]. destruct (p ++ b) eqn:Hpb; cbn [strstr]; rewrite <- ?Hpb;
        rewrite starts_with_app; reflexivity.
    + cbn [app strstr]. rewrite IH. apply orb_true_r.
Qed.

Lemma fgets_chunks_concat (size : nat) (stream : list ascii) : forall room buf,
  concat (fgets_chunks size room buf stream) = rev buf ++ stream.
Proof.
  induction stream as [|c rest IH]; intros room buf; cbn [fgets_chunks].
  - destruct buf; cbn [concat]; rewrite ?app_nil_r; reflexivity.
  - destruct (eqc c nl || (room =? 1)%nat).
    + cbn [concat]. rewrite IH. cbn [rev app]. rewrite <- (assoc_L (++)). reflexivity.
    + rewrite IH. cbn [rev]. rewrite <- (assoc_L (++)). reflexivity.
Qed.

Lemma c_str_prefix (buf : list ascii) : exists t, buf = c_str buf ++ t.
Proof.
  induction buf as [|c r (t & Ht)]; cbn [c_str].
  - exists []. reflexivity.
  - destruct (eqc c nul).
    + exists (c :: r). reflexivity.
    + exists t. cbn [app]. rewrite <- Ht. reflexivity.
Qed.

(** Every line handed to the loop body is a piece of the file. *)
Lemma fgets_all_infix (size : nat) (content line : list ascii) :
  line ∈ fgets_all size content -> exists a b, content = a ++ line ++ b.
Proof.
  unfold fgets_all. intros Hin.
  apply list_elem_of_fmap in Hin as (chunk & -> & Hchunk).
  apply list_elem_of_split in Hchunk as (l1 & l2 & Hsplit).
  pose proof (fgets_chunks_concat size content (size - 1) []) as Hcat.
  rewrite Hsplit, concat_app in Hcat. cbn [concat rev app] in Hcat.
  destruct (c_str_prefix chunk) as (t & Ht).
  exists (concat l1), (t ++ concat l2).
  rewrite <- Hcat. rewrite Ht at 1. rewrite <- !(assoc_L (++)). reflexivity.
Qed.

Lemma scan_lines_before_marker lines : forall st,
  irqdefs st = false ->
  Forall (fun line => strstr line (cs "_IRQn") = false) lines ->
  scan_lines st lines = Some st.
Proof.
  induction lines as [|line rest IH]; intros st Hd Hall; [reflexivity|].
  apply Forall_cons in Hall as [Hline Hrest].
  cbn [scan_lines]. unfold scan_line. cbv zeta. cbn [irqdefs maxirqn irqname errs].
  rewrite Hd, Hline. cbn [orb].
  replace {| irqdefs := false; maxirqn := maxirqn st; irqname := irqname st;
             errs := errs st |} with st by (destruct st; cbn in Hd; subst; reflexivity).
  apply IH; assumption.
Qed.

Lemma effective_maxirqn_le o maxirqn : effective_maxirqn o maxirqn <= maxirqn.
Proof.
  unfold effective_maxirqn, limit_maxirqn.
  destruct (negb (adjust_nirqns o (mcuirqns_of maxirqn) =? -1)
            && (maxirqn >? adjust_nirqns o (mcuirqns_of maxirqn) - 1)) eqn:Hc; [|lia].
  apply andb_prop in Hc as [_ Hgt]. lia.
Qed.

(** X9: a header in which the text [_IRQn] occurs nowhere leaves the
    scanner in its initial state, whatever else it contains (closing
    braces, lines of the form [name = number], tokens of any length);
    without -i the generator then declares no handler and fills neither
    vector table. *)
Theorem header_without_marker content o :
  strstr content (cs "_IRQn") = false ->
  addirqs o = false ->
  scan_header content = Some scan_init
  /\ handler_decls o (irqname scan_init) (effective_maxirqn o (maxirqn scan_init)) = []
  /\ core_vectors o (irqname scan_init) = []
  /\ nvic_vectors o (irqname scan_init) (effective_maxirqn o (maxirqn scan_init)) = [].
Proof.
  intros Hno _.
  pose proof (effective_maxirqn_le o (maxirqn scan_init)) as Hle.
  cbn [maxirqn scan_init] in Hle.
  split; [|split; [|split]].
  - apply scan_lines_before_marker; [reflexivity|].
    apply Forall_forall. intros line Hin.
    destruct (strstr line (cs "_IRQn")) eqn:Hline; [|reflexivity].
    apply strstr_infix in Hline as (a & b & ->).
    apply fgets_all_infix in Hin as (a' & b' & Hc).
    assert (strstr content (cs "_IRQn") = true) as Habs; [|congruence].
    apply strstr_infix. exists (a' ++ a), (b ++ b'). rewrite Hc.
    rewrite <- !(assoc_L (++)). reflexivity.
  - unfold handler_decls. rewrite seqZ_nil by (cbn [maxirqn scan_init]; lia). reflexivity.
  - reflexivity.
  - unfold nvic_vectors. rewrite seqZ_nil by (cbn [maxirqn scan_init]; lia). reflexivity.
Qed.

Lemma header_without_marker_witness :
  scan_header (ln "typedef enum { A = 1, B = 2 } kind_t;" ++ ln "X_IRQ = 5,")
  = Some scan_init
  /\ handler_decls {| addirqs := false; stdexcnames := true; nirqns := 8 |}
       (irqname scan_init)
       (effective_maxirqn {| addirqs := false; stdexcnames := true; nirqns := 8 |}
          (maxirqn scan_init)) = []
  /\ core_vectors {| addirqs := false; stdexcnames := true; nirqns := 8 |}
       (irqname scan_init) = []
  /\ nvic_vectors {| addirqs := false; stdexcnames := true; nirqns := 8 |}
       (irqname scan_init)
       (effective_maxirqn {| addirqs := false; stdexcnames := true; nirqns := 8 |}
          (maxirqn scan_init)) = [].
Proof.
  apply (header_without_marker
           (ln "typedef enum { A = 1, B = 2 } kind_t;" ++ ln "X_IRQ = 5,")
           {| addirqs := false; stdexcnames := true; nirqns := 8 |});
    reflexivity.
Defined.

(* ------------------------------------------------------------------ *)
(** ** The vector tables against the declarations *)

Lemma nonempty_false (s : list ascii) : nonempty s = false -> s = [].
Proof. destruct s; [reflexivity|discriminate]. Qed.

Lemma core_handler_decl o t i :
  i < 16 -> decl_handler o t i = core_handler o t i.
Proof.
  intros Hi. unfold decl_handler, core_handler, core_or_vendor_name.
  replace (i <? 16) with true by lia. replace (i >=? 16) with false by lia.
  rewrite andb_true_r. cbn [andb]. destruct (nonempty (irqname_at t i)); reflexivity.
Qed.

Lemma nvic_handler_decl o t i :
  16 <= i -> decl_handler o t i = nvic_handler o t i.
Proof.
  intros Hi. unfold decl_handler, nvic_handler, core_or_vendor_name.
  replace (i <? 16) with false by lia. replace (i >=? 16) with true by lia.
  rewrite andb_false_r. cbn [andb]. reflexivity.
Qed.

Lemma core_handler_nonempty o t i h :
  core_handler o t i = Some h -> irqname_at t i <> [].
Proof.
  unfold core_handler. destruct (irqname_at t i); [discriminate|]. discriminate.
Qed.

(** X10: for every table the scanner can produce and every valid vector
    count, each handler named in [Core_Exceptions] or [NVIC_Interrupts]
    has a weak declaration for the same slot, and each declaration is
    used by one of the two tables. *)
Theorem vectors_match_declarations content st o :
  scan_header content = Some st ->
  nirqns o = -1 \/ 0 <= nirqns o <= 496 ->
  let m := effective_maxirqn o (maxirqn st) in
  (forall i h, (i, h) ∈ core_vectors o (irqname st) ->
               (i, h) ∈ handler_decls o (irqname st) m)
  /\ (forall k h, (k, h) ∈ nvic_vectors o (irqname st) m ->
                  (k + 16, h) ∈ handler_decls o (irqname st) m)
  /\ (forall i h, (i, h) ∈ handler_decls o (irqname st) m ->
                  (i, h) ∈ core_vectors o (irqname st)
                  \/ (i - 16, h) ∈ nvic_vectors o (irqname st) m).
Proof.
  intros Hscan Hn m.
  destruct (scan_header_inv content st Hscan) as (_ & _ & Hslots & _).
  split; [|split].
  - intros i h Hin. apply elem_of_core_vectors in Hin as [Hi Hc].
    apply elem_of_handler_decls. split.
    + pose proof (Hslots i (core_handler_nonempty _ _ _ _ Hc)) as Hslot.
      split; [lia|]. apply effective_maxirqn_core; [exact Hn|lia|lia].
    + rewrite core_handler_decl by lia. exact Hc.
  - intros k h Hin. apply elem_of_nvic_vectors in Hin as [Hk Hv].
    apply elem_of_handler_decls. split; [lia|].
    rewrite nvic_handler_decl by lia. exact Hv.
  - intros i h Hin. apply elem_of_handler_decls in Hin as [Hi Hd].
    destruct (Z.lt_ge_cases i 16) as [Hlt|Hge].
    + left. apply elem_of_core_vectors. split; [lia|].
      rewrite <- core_handler_decl by lia. exact Hd.
    + right. apply elem_of_nvic_vectors. split; [lia|].
      replace (i - 16 + 16) with i by lia.
      rewrite <- nvic_handler_decl by lia. exact Hd.
Qed.

Lemma vectors_match_declarations_witness :
  exists st, scan_header header1 = Some st
    /\ let o := {| addirqs := true; stdexcnames := true; nirqns := 1 |} in
       let m := effective_maxirqn o (maxirqn st) in
       (forall i h, (i, h) ∈ core_vectors o (irqname st) ->
                    (i, h) ∈ handler_decls o (irqname st) m)
       /\ (forall k h, (k, h) ∈ nvic_vectors o (irqname st) m ->
                       (k + 16, h) ∈ handler_decls o (irqname st) m)
       /\ (forall i h, (i, h) ∈ handler_decls o (irqname st) m ->
                       (i, h) ∈ core_vectors o (irqname st)
                       \/ (i - 16, h) ∈ nvic_vectors o (irqname st) m).
Proof.
  eexists. split; [vm_compute; reflexivity|].
  apply (vectors_match_declarations header1 _
           {| addirqs := true; stdexcnames := true; nirqns := 1 |}).
  - vm_compute. reflexivity.
  - right. cbn. lia.
Defined.

(** X11: a core-exception slot without a vendor name is never declared
    and never entered in [Core_Exceptions], neither by -i (which makes up
    names for NVIC slots only) nor by -s (which renames, but does not
    add, core handlers). *)
Theorem unnamed_core_slot_not_emitted o t m i h :
  i < 16 ->
  irqname_at t i = [] ->
  ((i, h) ∉ handler_decls o t m) /\ ((i, h) ∉ core_vectors o t).
Proof.
  intros Hi Hempty. split.
  - rewrite elem_of_handler_decls. intros [_ Hd].
    rewrite core_handler_decl in Hd by exact Hi.
    apply core_handler_nonempty in Hd. contradiction.
  - rewrite elem_of_core_vectors. intros [_ Hc].
    apply core_handler_nonempty in Hc. contradiction.
Qed.

Lemma unnamed_core_slot_not_emitted_witness :
  ((2, cs "NMI_Handler")
     ∉ handler_decls {| addirqs := true; stdexcnames := true; nirqns := -1 |}
         (replicate NIRQNAMES []) 40)
  /\ ((2, cs "NMI_Handler")
     ∉ core_vectors {| addirqs := true; stdexcnames := true; nirqns := -1 |}
         (replicate NIRQNAMES [])).
Proof.
  apply (unnamed_core_slot_not_emitted
           {| addirqs := true; stdexcnames := true; nirqns := -1 |}
           (replicate NIRQNAMES []) 40 2 (cs "NMI_Handler")).
  - lia.
  - reflexivity.
Defined.

(* ------------------------------------------------------------------ *)
(** ** The indices of the NVIC table *)

Lemma omap_cons_eq {A B} (f : A -> option B) (x : A) (l : list A) :
  omap f (x :: l) = match f x with Some y => y :: omap f l | None => omap f l end.
Proof. reflexivity. Qed.

Lemma nvic_indices_sorted o t : forall l,
  StronglySorted Z.lt l ->
  StronglySorted Z.lt
    (fst <$> omap (fun i => pair (i - 16) <$> nvic_handler o t i) l).
Proof.
  intros l Hs. induction Hs as [|x l Hs IH Hall]; [constructor|].
  rewrite omap_cons_eq.
  destruct (nvic_handler o t x) as [h|]; cbn [fmap option_fmap option_map]; [|exact IH].
  rewrite fmap_cons. cbn [fst]. constructor; [exact IH|].
  apply Forall_forall. intros k Hk.
  apply list_elem_of_fmap in Hk as ([k' h'] & -> & Hin).
  apply list_elem_of_omap in Hin as (j & Hj & Hf).
  destruct (nvic_handler o t j); [|discriminate]. cbn in Hf. injection Hf as <- <-.
  cbn [fst]. pose proof (proj1 (Forall_forall _ _) Hall j Hj). lia.
Qed.

Lemma seqZ_sorted m n : StronglySorted Z.lt (seqZ m n).
Proof.
  destruct (Z.le_gt_cases n 0) as [Hn|Hn]; [rewrite seqZ_nil by lia; constructor|].
  rewrite <- (Z2Nat.id n) by lia. generalize (Z.to_nat n) as k. clear n Hn.
  intros k. revert m. induction k as [|k IH]; intros m.
  - rewrite seqZ_nil by lia. constructor.
  - rewrite seqZ_cons by lia. constructor.
    + replace (Z.pred (Z.of_nat (S k))) with (Z.of_nat k) by lia. apply IH.
    + apply Forall_seqZ. intros j Hj. lia.
Qed.

(** X12: the NVIC initializers come in strictly increasing index order,
    hence no index twice; with -i every index from 0 to the last
    interrupt number is present, with no gap. *)
Theorem nvic_indices_ordered_and_dense o t m :
  StronglySorted Z.lt (nvic_vectors o t m).*1
  /\ (addirqs o = true -> (nvic_vectors o t m).*1 = seqZ 0 (m + 1)).
Proof.
  split.
  - unfold nvic_vectors. apply nvic_indices_sorted, seqZ_sorted.
  - intros Hi. unfold nvic_vectors.
    assert (forall l : list Z,
              fst <$> omap (fun i => pair (i - 16) <$> nvic_handler o t i) l
              = Z.add (-16) <$> l) as Hmap.
    { induction l as [|x l IH]; [reflexivity|].
      rewrite omap_cons_eq. unfold nvic_handler at 1. rewrite Hi.
      destruct (nonempty (irqname_at t x)); cbn [fmap option_fmap option_map];
        rewrite !fmap_cons; cbn [fst]; rewrite IH; f_equal; lia. }
    rewrite Hmap, fmap_add_seqZ. reflexivity.
Qed.

(* ------------------------------------------------------------------ *)
(** ** -n beyond the MCU's count, without -i *)

(** X13: without -i, a vector count above the MCU's own has no effect at
    all: the output file is, byte for byte, the one written when -n is
    not given. *)
Theorem excess_count_without_i_ignored o st ofname in_name :
  addirqs o = false ->
  nirqns o > mcuirqns_of (maxirqn st) ->
  output_text o st ofname in_name
  = output_text {| addirqs := false; stdexcnames := stdexcnames o; nirqns := -1 |}
      st ofname in_name.
Proof.
  destruct o as [a s n]. cbn [addirqs nirqns stdexcnames]. intros -> Hgt.
  assert (adjust_nirqns {| addirqs := false; stdexcnames := s; nirqns := n |}
            (mcuirqns_of (maxirqn st)) = mcuirqns_of (maxirqn st)) as Hadj.
  { unfold adjust_nirqns. cbn [addirqs nirqns negb].
    replace (n >? mcuirqns_of (maxirqn st)) with true by lia. reflexivity. }
  assert (effective_maxirqn {| addirqs := false; stdexcnames := s; nirqns := n |}
            (maxirqn st) = maxirqn st) as Heff.
  { unfold effective_maxirqn, limit_maxirqn. rewrite Hadj. unfold mcuirqns_of.
    replace (maxirqn st >? maxirqn st + 1 - 1) with false by lia.
    rewrite andb_false_r. reflexivity. }
  assert (adjust_nirqns {| addirqs := false; stdexcnames := s; nirqns := -1 |}
            (mcuirqns_of (maxirqn st)) <= -1
          \/ adjust_nirqns {| addirqs := false; stdexcnames := s; nirqns := -1 |}
               (mcuirqns_of (maxirqn st)) = mcuirqns_of (maxirqn st)) as Hadj'.
  { unfold adjust_nirqns. cbn [addirqs nirqns negb].
    destruct (-1 >? mcuirqns_of (maxirqn st)); cbn [andb]; auto. left. lia. }
  assert (effective_maxirqn {| addirqs := false; stdexcnames := s; nirqns := -1 |}
            (maxirqn st) = maxirqn st) as Heff'.
  { unfold effective_maxirqn, limit_maxirqn, adjust_nirqns, mcuirqns_of.
    cbn [addirqs nirqns negb].
    destruct (Z.gtb_spec (-1) (maxirqn st + 1)); cbn [andb].
    - replace (maxirqn st >? maxirqn st + 1 - 1) with false by lia.
      rewrite andb_false_r. reflexivity.
    - reflexivity. }
  unfold output_text. cbv zeta. rewrite Hadj, Heff, Heff'.
  cbn [addirqs stdexcnames].
  rewrite Z.eqb_refl. rewrite andb_false_r.
  replace ((adjust_nirqns {| addirqs := false; stdexcnames := s; nirqns := -1 |}
              (mcuirqns_of (maxirqn st)) >? -1)
           && negb (adjust_nirqns {| addirqs := false; stdexcnames := s; nirqns := -1 |}
                      (mcuirqns_of (maxirqn st)) =? mcuirqns_of (maxirqn st)))
    with false.
  - reflexivity.
  - destruct Hadj' as [Hle|Heq].
    + replace (adjust_nirqns {| addirqs := false; stdexcnames := s; nirqns := -1 |}
                 (mcuirqns_of (maxirqn st)) >? -1) with false by lia. reflexivity.
    + rewrite Heq, Z.eqb_refl. rewrite andb_false_r. reflexivity.
Qed.

Lemma excess_count_without_i_ignored_witness :
  output_text {| addirqs := false; stdexcnames := true; nirqns := 40 |}
    scan_init (cs "startup_x.c") (cs "x.h")
  = output_text {| addirqs := false;
                   stdexcnames := stdexcnames
                                    {| addirqs := false; stdexcnames := true; nirqns := 40 |};
                   nirqns := -1 |}
      scan_init (cs "startup_x.c") (cs "x.h").
Proof.
  apply (excess_count_without_i_ignored
           {| addirqs := false; stdexcnames := true; nirqns := 40 |}
           scan_init (cs "startup_x.c") (cs "x.h")).
  - reflexivity.
  - unfold mcuirqns_of. cbn. lia.
Defined.

(* ------------------------------------------------------------------ *)
(** ** The [sprintf] buffers of the generator *)

Lemma fmt_d_short k : 0 <= k <= 495 -> (length (fmt_d k) <= 3)%nat.
Proof.
  intros Hk.
  assert (forallb (fun j => (length (fmt_d j) <=? 3)%nat) (seqZ 0 496) = true) as Hall
    by (vm_compute; reflexivity).
  rewrite forallb_forall in Hall.
  apply Nat.leb_le, Hall, list_elem_of_In, elem_of_seqZ. lia.
Qed.

Lemma stdexcname_at_short i s : stdexcname_at i = Some s -> (length s <= 10)%nat.
Proof.
  unfold stdexcname_at. intros Hs.
  destruct (stdexcname !! Z.to_nat i) as [o|] eqn:Hl; cbn in Hs; [subst o|discriminate].
  assert (Forall (fun o => forall s', o = Some s' -> (length s' <= 10)%nat) stdexcname)
    as Hall.
  { unfold stdexcname.
    repeat (apply Forall_cons; split; [intros s' [=]; subst; cbn; lia|]).
    constructor. }
  exact (proj1 (Forall_lookup _ _) Hall _ _ Hl s eq_refl).
Qed.

Lemma pad_left_length w s : length (pad_left w s) = Nat.max w (length s).
Proof. unfold pad_left. rewrite length_app, length_replicate. lia. Qed.

Lemma decl_handler_short o t i h :
  (forall j, (length (irqname_at t j) <= 30)%nat) ->
  i <= 511 ->
  decl_handler o t i = Some h -> (length h <= 37)%nat.
Proof.
  intros Hnames Hi. unfold decl_handler.
  destruct (nonempty (irqname_at t i)).
  - intros [= <-]. rewrite length_app. cbn [cs list_ascii_of_string length].
    unfold core_or_vendor_name.
    destruct (stdexcnames o && (i <? 16)).
    + destruct (stdexcname_at i) as [s|] eqn:Hs.
      * apply stdexcname_at_short in Hs. lia.
      * specialize (Hnames i). lia.
    + specialize (Hnames i). lia.
  - destruct (Z.geb_spec i 16); cbn [andb]; [|discriminate].
    destruct (addirqs o); [|discriminate].
    intros [= <-]. cbn [length]. rewrite length_app. cbn [length].
    pose proof (fmt_d_short (i - 16) ltac:(lia)). lia.
Qed.

(** X14: for every table the scanner can produce, the strings the
    generator formats into its local buffers fit them: each prototype
    [void <handler>(void)] is shorter than the 50 bytes of [proto], and
    each NVIC initializer is shorter than the 80 bytes of [s] (the line
    written is that string after 8 blanks and before a newline). *)
Theorem generator_buffers_suffice content st o :
  scan_header content = Some st ->
  let m := effective_maxirqn o (maxirqn st) in
  (forall i h, (i, h) ∈ handler_decls o (irqname st) m ->
               (length (cs "void " ++ h ++ cs "(void)") < 50)%nat)
  /\ (forall k h, (k, h) ∈ nvic_vectors o (irqname st) m ->
                  (length (nvic_vector_text m (k, h)) < 8 + 80 + 1)%nat).
Proof.
  intros Hscan m.
  destruct (scan_header_inv content st Hscan) as (_ & Hmax & _ & Hshort).
  assert (forall j, (length (irqname_at (irqname st) j) <= 30)%nat) as Hnames.
  { intros j. unfold irqname_at.
    destruct (irqname st !! Z.to_nat j) as [name|] eqn:Hl; cbn; [|lia].
    apply (proj1 (Forall_lookup _ _) Hshort) in Hl. unfold IRQNAMELEN in Hl. lia. }
  pose proof (effective_maxirqn_le o (maxirqn st)) as Hle. fold m in Hle.
  split.
  - intros i h Hin. apply elem_of_handler_decls in Hin as [Hi Hd].
    apply (decl_handler_short o _ i h Hnames) in Hd; [|lia].
    rewrite !length_app. cbn [cs list_ascii_of_string length]. lia.
  - intros k h Hin. apply elem_of_nvic_vectors in Hin as [Hk Hv].
    rewrite <- nvic_handler_decl in Hv by lia.
    apply (decl_handler_short o _ (k + 16) h Hnames) in Hv; [|lia].
    unfold nvic_vector_text. cbn [fst snd].
    rewrite !length_app, pad_left_length.
    pose proof (fmt_d_short k ltac:(lia)) as Hfmt.
    assert (index_width m <= 3)%nat as Hw.
    { unfold index_width. destruct (m >? 99); lia. }
    cbn [cs list_ascii_of_string length].
    destruct (k + 16 <? m + 16); cbn [length]; lia.
Qed.

Lemma generator_buffers_suffice_witness :
  exists st, scan_header header_late = Some st
    /\ let o := {| addirqs := true; stdexcnames := false; nirqns := -1 |} in
       let m := effective_maxirqn o (maxirqn st) in
       (forall i h, (i, h) ∈ handler_decls o (irqname st) m ->
                    (length (cs "void " ++ h ++ cs "(void)") < 50)%nat)
       /\ (forall k h, (k, h) ∈ nvic_vectors o (irqname st) m ->
                       (length (nvic_vector_text m (k, h)) < 8 + 80 + 1)%nat).
Proof.
  eexists. split; [vm_compute; reflexivity|].
  apply (generator_buffers_suffice header_late _
           {| addirqs := true; stdexcnames := false; nirqns := -1 |}).
  vm_compute. reflexivity.
Defined.

(* ------------------------------------------------------------------ *)
(** ** An entry needs white space before the equals sign *)




